(** * Provider adapters of langextract: Anthropic and Mistral

    A shallow embedding of [langextract/providers/anthropic.py] and
    [langextract/providers/mistral.py].  The two Python classes are the same
    text up to the vendor's names (class, package, SDK method, keyword of
    the base URL, path to the text of a response, texts of the messages),
    the default model identifier and the default of [max_tokens].  The
    embedding is therefore written once, over a [Provider] tag that supplies
    those differences that can be observed.

    The vendor SDK is not part of the sources.  It is a parameter of the
    development, in two parts: the client class, which returns a handle or
    raises when the constructor calls it, and the remote service, a
    function from the history of the process so far, the client handle and
    the request to an outcome (an exception, a response, or an object the
    adapter cannot read).  Every interaction with the outside (opening the SDK client,
    opening a thread pool, a remote call together with its outcome) is
    appended to a trace, so that statements about what was or was not sent
    are statements about that trace.

    [infer] is a generator.  Its embedding is the run of that generator to
    its end: the groups it yields, in order, and how it ends. *)

From stdpp Require Import base strings gmap list.
From Stdlib Require Import ZArith Floats.

Open Scope Z_scope.

(** ** Python values *)

(** Modelled from the spec: [langextract.data.FormatType] is not part of the
    sources at hand; section 4.2 describes the output-format selector as an
    enumeration with the two members structured-JSON and structured-YAML. *)
Inductive FormatType := JSON | YAML.

(** The values that reach the adapters through untyped positions: the
    [**kwargs] dictionary of [infer], the [config] dictionary built from it,
    and the attribute [format_type], which Python does not force to be a
    member of [FormatType]. *)
Inductive pyval :=
| PyNone
| PyInt (z : Z)
| PyFloat (f : float)
| PyStr (s : string)
| PyEnum (ft : FormatType).

(** [dict.get(key, default)] *)
Definition dict_get (d : gmap string pyval) (key : string) (dflt : pyval) : pyval :=
  match d !! key with
  | Some v => v
  | None => dflt
  end.

(** ** Exceptions *)

(** [ImportError], [IndexError], [AttributeError] and [TypeError] are
    Python's own; [SDKError] stands for any exception of the vendor's own
    classes; the last two are the classes of [langextract.exceptions] the
    adapters raise, with the keyword argument [original] of
    [InferenceRuntimeError] and the [from e] cause of
    [InferenceConfigError]. *)
#[warnings="-register-all"]
Inductive exn :=
| ImportError (msg : string)
| IndexError (msg : string)
| AttributeError (msg : string)
| TypeError (msg : string)
| SDKError (msg : string)
| InferenceConfigError (msg : string) (cause : option exn)
| InferenceRuntimeError (msg : string) (original : option exn).

(** [str(e)]: the message the exception was built with. *)
Definition str (e : exn) : string :=
  match e with
  | ImportError msg | IndexError msg | AttributeError msg
  | TypeError msg | SDKError msg => msg
  | InferenceConfigError msg _ | InferenceRuntimeError msg _ => msg
  end.

Definition is_config_error (e : exn) : bool :=
  match e with InferenceConfigError _ _ => true | _ => false end.

Definition is_runtime_error (e : exn) : bool :=
  match e with InferenceRuntimeError _ _ => true | _ => false end.

(** ** The two provider variants *)

Inductive Provider := Anthropic | Mistral.

(** The vendor's name as it appears in the messages of the exceptions. *)
Definition vendor (P : Provider) : string :=
  match P with Anthropic => "Anthropic" | Mistral => "Mistral" end.

(** The module the constructor imports lazily. *)
Definition package (P : Provider) : string :=
  match P with Anthropic => "anthropic" | Mistral => "mistralai" end.

Definition default_model_id (P : Provider) : string :=
  match P with
  | Anthropic => "claude-3-5-sonnet-latest"
  | Mistral => "mistral-large-latest"
  end.

(** [config.get('max_output_tokens', 4096)] in anthropic.py,
    [config.get('max_output_tokens')] in mistral.py. *)
Definition default_max_tokens (P : Provider) : pyval :=
  match P with Anthropic => PyInt 4096 | Mistral => PyNone end.

Definition missing_package_message (P : Provider) : string :=
  match P with
  | Anthropic =>
      "Anthropic provider requires anthropic package. " +:+
      "Install with: pip install langextract[anthropic]"
  | Mistral =>
      "Mistral provider requires mistralai package. " +:+
      "Install with: pip install langextract[mistral]"
  end.

(** ** Requests, responses and the trace *)

(** The handle built by [anthropic.Anthropic(api_key=..., base_url=...)] or
    [Mistral(api_key=..., endpoint=...)]. *)
Record Client := {
  client_api_key : option string;
  client_base_url : option string
}.

Record Message := { role : string; content : string }.

(** The keyword arguments of [messages.create] / [chat.complete]. *)
Record Request := {
  req_model : string;
  req_messages : list Message;
  req_temperature : pyval;
  req_max_tokens : pyval;
  req_top_p : pyval
}.

(** What the adapter reads of a response: the texts of its content
    elements ([response.content[k].text], [response.choices[k].message.content]).
    A text is a string; a Mistral message whose content is [None] is not
    represented. *)
Record Response := { texts : list string }.

(** How a remote call ends: the SDK raises; or it returns a response with
    the texts of its content elements, possibly none; or it returns an
    object on which reading the first text raises [e], an [AttributeError]
    or a [TypeError] (a first element without text, a content that is not a
    list). *)
Inductive outcome :=
| Raises (e : exn)
| Returns (r : Response)
| Malformed (e : exn).

(** The object a call hands back to the adapter. *)
Inductive ResponseObject :=
| WithTexts (r : Response)
| Unreadable (e : exn).

Inductive Event :=
| EvClient (c : Client)
| EvPool (workers : Z)
| EvCall (c : Client) (req : Request) (out : outcome).

Abbreviation World := (list Event).

Definition is_call (ev : Event) : bool :=
  match ev with EvCall _ _ _ => true | _ => false end.

(** Modelled from the spec: [langextract.inference.ScoredOutput] is not part
    of the sources at hand; the glossary describes it as one inference result,
    a text and a score, and the adapters build it with the keywords [score]
    and [output]. *)
Record ScoredOutput := { score : float; output : string }.

(** ** A monad for the adapters' effects

    A computation reads and extends the trace, yields result groups (the
    body of a generator) and ends with a value or with a raised exception. *)

Record Res (A : Type) := mkRes {
  value : exn + A;
  yielded : list (list ScoredOutput);
  world : World
}.
Arguments mkRes {A} _ _ _.
Arguments value {A} _.
Arguments yielded {A} _.
Arguments world {A} _.

Definition M (A : Type) : Type := World → Res A.

Definition ret {A} (a : A) : M A := λ w, mkRes (inr a) [] w.

Definition raise {A} (e : exn) : M A := λ w, mkRes (inl e) [] w.

Definition bind {A B} (m : M A) (k : A → M B) : M B := λ w,
  let r := m w in
  match value r with
  | inl e => mkRes (inl e) (yielded r) (world r)
  | inr a =>
      let r' := k a (world r) in
      mkRes (value r') (yielded r ++ yielded r') (world r')
  end.

Notation "'let!' x ':=' m 'in' k" := (bind m (λ x, k))
  (at level 10, x name, m at level 100, k at level 200,
   format "'[v' 'let!'  x  :=  m  'in'  '/' k ']'").
Notation "'do!' m 'in' k" := (bind m (λ _, k))
  (at level 10, m at level 100, k at level 200,
   format "'[v' 'do!'  m  'in'  '/' k ']'").

(** [try: body except Exception as e: handler(e)] *)
Definition try_except {A} (body : M A) (handler : exn → M A) : M A := λ w,
  let r := body w in
  match value r with
  | inl e =>
      let r' := handler e (world r) in
      mkRes (value r') (yielded r ++ yielded r') (world r')
  | inr a => r
  end.

(** [yield group] *)
Definition yield (group : list ScoredOutput) : M unit :=
  λ w, mkRes (inr tt) [group] w.

(** Appends an event to the trace. *)
Definition emit (ev : Event) : M unit := λ w, mkRes (inr tt) [] (w ++ [ev]).

(** The outcome of a worker thread, as stored in its future: an exception
    raised by the task is kept there and not raised in the submitting
    thread. *)
Definition in_future {A} (task : M A) : M (exn + A) := λ w,
  let r := task w in mkRes (inr (value r)) (yielded r) (world r).

(** The events a computation appended, given that it only appends. *)
Definition new_events (w : World) (w' : World) : World := drop (length w) w'.

(** ** The provider instance *)

(** The fields of the dataclass.  [_client] is the handle the constructor
    stores; an instance exists only once [__init__] has returned, so the
    field is always set. *)
Record LanguageModel := {
  model_id : string;
  api_key : option string;
  base_url : option string;
  format_type : pyval;
  temperature : float;
  max_workers : Z;
  _client : Client;
  _extra_kwargs : gmap string pyval
}.

(** What the process offers to a constructor: the modules that can be
    imported and the environment variables. *)
Record Runtime := {
  importable : gset string;
  environ : gmap string string
}.

(** The arguments of [__init__]. *)
Record InitArgs := {
  arg_model_id : string;
  arg_api_key : option string;
  arg_base_url : option string;
  arg_format_type : pyval;
  arg_temperature : float;
  arg_max_workers : Z;
  arg_kwargs : gmap string pyval
}.

(** The defaults of the signature of [__init__]. *)
Definition default_args (P : Provider) : InitArgs :=
  {| arg_model_id := default_model_id P;
     arg_api_key := None;
     arg_base_url := None;
     arg_format_type := PyEnum JSON;
     arg_temperature := 0%float;
     arg_max_workers := 10;
     arg_kwargs := ∅ |}.

(** Truth value of a [str | None]: [None] and the empty string are false. *)
Definition truthy (s : option string) : bool :=
  match s with
  | None => false
  | Some s => negb (String.eqb s "")
  end.

(** [import anthropic] / [from mistralai import Mistral] *)
Definition import_package (rt : Runtime) (P : Provider) : M unit :=
  if decide (package P ∈ importable rt) then ret tt
  else raise (ImportError ("No module named '" +:+ package P +:+ "'")).

(** The keyword arguments [__init__] hands to the client class of the SDK:
    [anthropic.Anthropic(api_key=..., base_url=...)] and
    [Mistral(api_key=..., endpoint=...)]. *)
Definition client_keywords (P : Provider) (a : InitArgs)
    : list (string * option string) :=
  match P with
  | Anthropic => [("api_key", arg_api_key a); ("base_url", arg_base_url a)]
  | Mistral => [("api_key", arg_api_key a); ("endpoint", arg_base_url a)]
  end.

(** The client classes of the vendor SDKs.  They are not part of the
    sources: called with keyword arguments, a class returns a handle or
    raises. *)
Definition SDK : Type := Provider → list (string * option string) → exn + Client.

(** The call of the client class; a handle that was built is recorded as
    [EvClient].  Building a handle sends nothing. *)
Definition open_client (sdk : SDK) (P : Provider) (a : InitArgs) : M Client := λ w,
  match sdk P (client_keywords P a) with
  | inl e => mkRes (inl e) [] w
  | inr client => mkRes (inr client) [] (w ++ [EvClient client])
  end.

(** [AnthropicLanguageModel.__init__] / [MistralLanguageModel.__init__].
    An exception of the client class is not caught.  The call
    [super().__init__(constraint=...)] that ends the constructor belongs to
    [inference.BaseLanguageModel]; it only stores the constraint and is left
    out. *)
Definition init (sdk : SDK) (P : Provider) (rt : Runtime) (a : InitArgs)
    : M LanguageModel :=
  do! try_except (import_package rt P)
       (λ e, raise (InferenceConfigError (missing_package_message P) (Some e))) in
  if negb (truthy (arg_api_key a)) then
    raise (InferenceConfigError
             ("API key not provided for " +:+ vendor P +:+ ".") None)
  else
    let! client := open_client sdk P a in
    ret {| model_id := arg_model_id a;
           api_key := arg_api_key a;
           base_url := arg_base_url a;
           format_type := arg_format_type a;
           temperature := arg_temperature a;
           max_workers := arg_max_workers a;
           _client := client;
           _extra_kwargs := arg_kwargs a |}.

Section Adapter.

(** The remote service behind the SDK client. *)
Variable backend : World → Client → Request → outcome.

(** [self._client.messages.create] / [self._client.chat.complete] applied
    to the keyword arguments [req]: one remote call, recorded with its
    outcome. *)
Definition remote_call (c : Client) (req : Request) : M ResponseObject := λ w,
  let out := backend w c req in
  let w' := w ++ [EvCall c req out] in
  match out with
  | Raises e => mkRes (inl e) [] w'
  | Returns r => mkRes (inr (WithTexts r)) [] w'
  | Malformed e => mkRes (inr (Unreadable e)) [] w'
  end.

(** [response.content[0].text] / [response.choices[0].message.content]:
    the first text; an [IndexError] when there is no element; whatever
    reading raises on an object that cannot be read. *)
Definition first_text (response : ResponseObject) : M string :=
  match response with
  | WithTexts r =>
      match texts r with
      | [] => raise (IndexError "list index out of range")
      | t :: _ => ret t
      end
  | Unreadable e => raise e
  end.

Definition system_message (self : LanguageModel) : string :=
  match format_type self with
  | PyEnum JSON => "You are a helpful assistant that responds in JSON format."
  | PyEnum YAML => "You are a helpful assistant that responds in YAML format."
  | _ => ""
  end.

Definition build_messages (self : LanguageModel) (prompt : string) : list Message :=
  let messages := [] in
  let messages :=
    if negb (String.eqb (system_message self) "")
    then messages ++ [{| role := "system"; content := system_message self |}]
    else messages in
  messages ++ [{| role := "user"; content := prompt |}].

Definition build_request (P : Provider) (self : LanguageModel)
    (prompt : string) (config : gmap string pyval) : Request :=
  {| req_model := model_id self;
     req_messages := build_messages self prompt;
     req_temperature := dict_get config "temperature" (PyFloat (temperature self));
     req_max_tokens :=
       match P with
       | Anthropic => dict_get config "max_output_tokens" (PyInt 4096)
       | Mistral => dict_get config "max_output_tokens" PyNone
       end;
     req_top_p := dict_get config "top_p" PyNone |}.

Definition _process_single_prompt (P : Provider) (self : LanguageModel)
    (prompt : string) (config : gmap string pyval) : M ScoredOutput :=
  try_except
    (let! response := remote_call (_client self) (build_request P self prompt config) in
     let! output_text := first_text response in
     ret {| score := 1%float; output := output_text |})
    (λ e, raise (InferenceRuntimeError
                   (vendor P +:+ " API error: " +:+ str e) (Some e))).

(** The dictionary [config] built at the head of [infer]. *)
Definition build_config (self : LanguageModel) (kwargs : gmap string pyval)
    : gmap string pyval :=
  let config : gmap string pyval :=
    {[ "temperature" := dict_get kwargs "temperature" (PyFloat (temperature self)) ]} in
  let config :=
    match kwargs !! "max_output_tokens" with
    | Some v => <["max_output_tokens" := v]> config
    | None => config
    end in
  let config :=
    match kwargs !! "top_p" with
    | Some v => <["top_p" := v]> config
    | None => config
    end in
  config.

(** The [else] branch of [infer]: one prompt after the other, each
    result yielded as soon as it is there.  ([config.copy()] hands every
    call its own copy of a dictionary nobody mutates.) *)
Fixpoint infer_sequential (P : Provider) (self : LanguageModel)
    (config : gmap string pyval) (batch_prompts : list string) : M unit :=
  match batch_prompts with
  | [] => ret tt
  | prompt :: rest =>
      let! result := _process_single_prompt P self prompt config in
      do! yield [result] in
      infer_sequential P self config rest
  end.

(** What the thread pool leaves open: the order in which the workers'
    calls reach the backend, and the order in which
    [concurrent.futures.as_completed] hands the futures back.  Both list
    positions of the batch. *)
Record Schedule := {
  started : list nat;
  completed : list nat
}.

Definition Future : Type := nat * (exn + ScoredOutput).

(** The tasks submitted by the dictionary comprehension
    [executor.submit(self._process_single_prompt, prompt, config.copy()): i],
    run in the order [started].  Leaving the [with] block waits for every
    submitted task, so each of them runs whatever the others do. *)
Fixpoint run_workers (P : Provider) (self : LanguageModel)
    (config : gmap string pyval) (batch_prompts : list string)
    (started : list nat) : M (list Future) :=
  match started with
  | [] => ret []
  | i :: rest =>
      match batch_prompts !! i with
      | Some prompt =>
          let! r := in_future (_process_single_prompt P self prompt config) in
          let! futures := run_workers P self config batch_prompts rest in
          ret ((i, r) :: futures)
      | None => run_workers P self config batch_prompts rest
      end
  end.

(** The future submitted for position [index]. *)
Fixpoint future_of (futures : list Future) (index : nat) : option (exn + ScoredOutput) :=
  match futures with
  | [] => None
  | (i, r) :: rest => if decide (i = index) then Some r else future_of rest index
  end.

(** [future.result()] *)
Definition future_result (r : exn + ScoredOutput) : M ScoredOutput :=
  match r with
  | inl e => raise e
  | inr so => ret so
  end.

(** The loop over [as_completed(future_to_index)]. *)
Fixpoint collect_results (futures : list Future) (completed : list nat)
    (results : list (option ScoredOutput)) : M (list (option ScoredOutput)) :=
  match completed with
  | [] => ret results
  | index :: rest =>
      match future_of futures index with
      | Some future =>
          let! results :=
            try_except
              (let! r := future_result future in
               ret (<[index := Some r]> results))
              (λ e, raise (InferenceRuntimeError
                             ("Parallel inference error: " +:+ str e) (Some e))) in
          collect_results futures rest results
      | None => collect_results futures rest results
      end
  end.

(** The loop [for result in results] that ends the parallel branch. *)
Fixpoint yield_results (results : list (option ScoredOutput)) : M unit :=
  match results with
  | [] => ret tt
  | None :: _ =>
      raise (InferenceRuntimeError "Failed to process one or more prompts" None)
  | Some result :: rest =>
      do! yield [result] in
      yield_results rest
  end.

(** The test that selects the thread pool. *)
Definition use_pool (self : LanguageModel) (batch_prompts : list string) : bool :=
  (1 <? Z.of_nat (length batch_prompts)) && (1 <? max_workers self).

Definition infer_parallel (P : Provider) (self : LanguageModel)
    (config : gmap string pyval) (batch_prompts : list string)
    (sch : Schedule) : M unit :=
  do! emit (EvPool (Z.min (max_workers self) (Z.of_nat (length batch_prompts)))) in
  let! futures := run_workers P self config batch_prompts (started sch) in
  let! results :=
    collect_results futures (completed sch)
      (replicate (length batch_prompts) None) in
  yield_results results.

(** [infer], run to the end of the generator it returns. *)
Definition infer (P : Provider) (self : LanguageModel)
    (batch_prompts : list string) (kwargs : gmap string pyval)
    (sch : Schedule) : M unit :=
  let config := build_config self kwargs in
  if use_pool self batch_prompts
  then infer_parallel P self config batch_prompts sch
  else infer_sequential P self config batch_prompts.

End Adapter.

(** ** Reading a trace *)

(** The text the adapters take from the outcome of a call: the first text
    of a response, nothing when the call raised, the response is empty or
    the object cannot be read. *)
Definition extracted (out : outcome) : option string :=
  match out with
  | Raises _ => None
  | Returns r => head (texts r)
  | Malformed _ => None
  end.

(** The exception [_process_single_prompt] raises for a caught [e]. *)
Definition api_error (P : Provider) (e : exn) : exn :=
  InferenceRuntimeError (vendor P +:+ " API error: " +:+ str e) (Some e).

(** The exception the pool branch of [infer] raises for a caught [e]. *)
Definition parallel_error (e : exn) : exn :=
  InferenceRuntimeError ("Parallel inference error: " +:+ str e) (Some e).

(** What [_process_single_prompt] makes of the outcome of its call. *)
Definition result_of (P : Provider) (out : outcome) : exn + ScoredOutput :=
  match out with
  | Raises e => inl (api_error P e)
  | Returns r =>
      match texts r with
      | [] => inl (api_error P (IndexError "list index out of range"))
      | t :: _ => inr {| score := 1%float; output := t |}
      end
  | Malformed e => inl (api_error P e)
  end.

Definition requests_of (evs : World) : list Request :=
  omap (λ ev, match ev with EvCall _ req _ => Some req | _ => None end) evs.

Definition outcomes_of (evs : World) : list outcome :=
  omap (λ ev, match ev with EvCall _ _ out => Some out | _ => None end) evs.

Definition pools_of (evs : World) : list Z :=
  omap (λ ev, match ev with EvPool k => Some k | _ => None end) evs.

(** The result group yielded for a call that produced the text [t]. *)
Definition group_of (t : string) : list ScoredOutput :=
  [{| score := 1%float; output := t |}].

(** The calls made for the first prompts of a list, one per outcome. *)
Definition calls_for (P : Provider) (self : LanguageModel)
    (config : gmap string pyval) (prompts : list string)
    (outs : list outcome) : World :=
  zip_with (λ p out, EvCall (_client self) (build_request P self p config) out)
    prompts outs.

(** The result groups of the calls that produced a text. *)
Definition groups_of (outs : list outcome) : list (list ScoredOutput) :=
  omap (λ out, group_of <$> extracted out) outs.

(** The tasks a schedule starts: the positions that exist in the batch,
    each with its prompt. *)
Definition tasks_of (prompts : list string) (started : list nat)
    : list (nat * string) :=
  omap (λ i, (λ p, (i, p)) <$> prompts !! i) started.

(** The futures of these tasks, given the outcomes of their calls. *)
Definition futures_for (P : Provider) (tasks : list (nat * string))
    (outs : list outcome) : list Future :=
  zip_with (λ t out, (t.1, result_of P out)) tasks outs.

(** The exception of the first failed future [as_completed] hands back. *)
Fixpoint first_failure (futures : list Future) (completed : list nat)
    : option exn :=
  match completed with
  | [] => None
  | index :: rest =>
      match future_of futures index with
      | Some (inl e) => Some e
      | _ => first_failure futures rest
      end
  end.

(** The buffer [results] once every future handed back has been stored. *)
Fixpoint fill (futures : list Future) (completed : list nat)
    (results : list (option ScoredOutput)) : list (option ScoredOutput) :=
  match completed with
  | [] => results
  | index :: rest =>
      match future_of futures index with
      | Some (inr r) => fill futures rest (<[index := Some r]> results)
      | _ => fill futures rest results
      end
  end.

(** The events a call of [infer] appends to the trace. *)
Definition trace_of (backend : World → Client → Request → outcome)
    (P : Provider) (self : LanguageModel) (batch_prompts : list string)
    (kwargs : gmap string pyval) (sch : Schedule) (w : World) : World :=
  new_events w (world (infer backend P self batch_prompts kwargs sch w)).

(** A schedule of the pool is a real one when every task is started once
    and every future is handed back once. *)
Definition valid_schedule (batch_prompts : list string) (sch : Schedule) : Prop :=
  started sch ≡ₚ seq 0 (length batch_prompts) ∧
  completed sch ≡ₚ seq 0 (length batch_prompts).

(** ** A simulated backend and sample instances *)

Definition user_prompt (req : Request) : string :=
  match last (req_messages req) with
  | Some m => content m
  | None => ""
  end.

(** Fails on the prompt "bad", answers every other prompt with one text. *)
Definition sim_backend : World → Client → Request → outcome :=
  λ _ _ req,
    if String.eqb (user_prompt req) "bad"
    then Raises (SDKError "boom")
    else Returns {| texts := ["re:" +:+ user_prompt req] |}.

Definition sample_client : Client :=
  {| client_api_key := Some "key"; client_base_url := None |}.

Definition sample_model (workers : Z) : LanguageModel :=
  {| model_id := "model";
     api_key := Some "key";
     base_url := None;
     format_type := PyEnum JSON;
     temperature := 0%float;
     max_workers := workers;
     _client := sample_client;
     _extra_kwargs := ∅ |}.

(** The request the sample instance sends for the prompt "hello" when the
    call overrides the temperature with 0.5 and nothing else. *)
Definition hello_request : Request :=
  {| req_model := "model";
     req_messages :=
       [ {| role := "system";
            content := "You are a helpful assistant that responds in JSON format." |};
         {| role := "user"; content := "hello" |} ];
     req_temperature := PyFloat 0.5%float;
     req_max_tokens := PyInt 4096;
     req_top_p := PyNone |}.

(** Overrides with a temperature and a key the adapters do not know. *)
Definition hello_kwargs : gmap string pyval :=
  {[ "temperature" := PyFloat 0.5%float; "seed" := PyInt 7 ]}.

Definition in_order (n : nat) : Schedule :=
  {| started := seq 0 n; completed := seq 0 n |}.

(** A schedule of three tasks whose calls start and finish out of order. *)
Definition shuffled : Schedule :=
  {| started := [2; 0; 1]%nat; completed := [1; 2; 0]%nat |}.

(** The value given for a keyword. *)
Fixpoint keyword (name : string) (kws : list (string * option string))
    : option string :=
  match kws with
  | [] => None
  | (k, v) :: rest => if decide (k = name) then v else keyword name rest
  end.

(** The keywords the client classes know, among those of interest here:
    [anthropic.Anthropic] takes [api_key] and [base_url];
    [mistralai.Mistral] takes [api_key] and [server_url], and has no
    keyword [endpoint]. *)
Definition accepted_keywords (P : Provider) : list string :=
  match P with
  | Anthropic => ["api_key"; "base_url"]
  | Mistral => ["api_key"; "server_url"]
  end.

Definition client_class (P : Provider) : string :=
  match P with Anthropic => "Anthropic" | Mistral => "Mistral" end.

(** A stand-in for the two SDKs: a call with a keyword the class does not
    know raises Python's [TypeError]; otherwise the handle holds the key
    and the URL. *)
Definition sample_sdk : SDK := λ P kws,
  match filter (λ kv, kv.1 ∉ accepted_keywords P) kws with
  | (k, _) :: _ =>
      inl (TypeError (client_class P +:+
                      ".__init__() got an unexpected keyword argument '" +:+
                      k +:+ "'"))
  | [] =>
      inr {| client_api_key := keyword "api_key" kws;
             client_base_url :=
               keyword (match P with
                        | Anthropic => "base_url"
                        | Mistral => "server_url"
                        end) kws |}
  end.

(** Both packages installed, a credential for each vendor in the
    environment. *)
Definition sample_runtime : Runtime :=
  {| importable := {[ "anthropic"; "mistralai" ]};
     environ := {[ "ANTHROPIC_API_KEY" := "sk-env"; "MISTRAL_API_KEY" := "sk-env" ]} |}.

(** How a finished constructor call is classified. *)
Definition failed_with_config_error {A} (r : Res A) : bool :=
  match value r with
  | inl e => is_config_error e
  | inr _ => false
  end.

Definition succeeded {A} (r : Res A) : bool :=
  match value r with
  | inl _ => false
  | inr _ => true
  end.

(** ** The registration test

    [test_provider_registration] of [test_new_providers.py], over what
    [registry.list_entries()] returns; the registry itself is not part of
    the sources at hand. *)

(** [needle in hay] on strings. *)
Fixpoint contains (needle hay : string) : bool :=
  String.prefix needle hay ||
  match hay with
  | EmptyString => false
  | String _ rest => contains needle rest
  end.

(** The arguments of the decorator [registry.register] on the two classes. *)
Definition registered_pattern (P : Provider) : string :=
  match P with Anthropic => "^claude-" | Mistral => "^mistral-" end.

Definition registered_priority (P : Provider) : Z := 10.

(** An element of [registry.list_entries()]: patterns and priority. *)
Definition Entry : Type := list string * Z.

(** [[pattern for patterns, _ in providers for pattern in patterns]] *)
Definition provider_patterns (providers : list Entry) : list string :=
  flat_map fst providers.

(** The test: the lines it prints and, when an assertion fails, the message
    of the [AssertionError].  [show] renders the line printed for an entry,
    whose text depends on how Python prints the container of patterns. *)
Definition test_provider_registration (show : Entry → string)
    (providers : list Entry) : list string * option string :=
  let out := ["Registered providers:"] ++ (show <$> providers) in
  if negb (existsb (contains "claude-") (provider_patterns providers))
  then (out, Some "Anthropic provider not registered")
  else
    let out := out ++ ["[PASS] Anthropic provider is registered"] in
    if negb (existsb (contains "mistral-") (provider_patterns providers))
    then (out, Some "Mistral provider not registered")
    else
      let out := out ++ ["[PASS] Mistral provider is registered"] in
      if negb (existsb (contains "grok-") (provider_patterns providers))
      then (out, Some "Grok provider not registered")
      else
        let out := out ++ ["[PASS] Grok provider is registered"] in
        (out ++ ["All new providers are properly registered!"], None).

(** Some registered pattern has [name] as a substring. *)
Definition some_pattern_has (name : string) (providers : list Entry) : Prop :=
  ∃ entry pattern pre post,
    entry ∈ providers ∧ pattern ∈ entry.1 ∧ pattern = pre +:+ name +:+ post.

(** How an entry is printed in the examples below. *)
Definition show_priority (entry : Entry) : string :=
  match entry.2 with 10 => "  Priority: 10" | _ => "  Priority: other" end.

(** ** Notions for the further properties *)

(** The sample instance with another key, another base URL on the instance
    and stored extra options, but the same client. *)
Definition relabelled_model (workers : Z) : LanguageModel :=
  {| model_id := "model";
     api_key := Some "another key";
     base_url := Some "https://proxy.example";
     format_type := PyEnum JSON;
     temperature := 0%float;
     max_workers := workers;
     _client := sample_client;
     _extra_kwargs := {[ "seed" := PyInt 7 ]} |}.

(** Arguments of a constructor call with a key, a proxy and an extra
    option. *)
Definition sample_args : InitArgs :=
  {| arg_model_id := "model-x";
     arg_api_key := Some "key-x";
     arg_base_url := Some "https://proxy.example";
     arg_format_type := PyEnum YAML;
     arg_temperature := 0.5%float;
     arg_max_workers := 1;
     arg_kwargs := {[ "seed" := PyInt 7 ]} |}.

(** The instance the constructor builds from [sample_args]. *)
Definition sample_built : LanguageModel :=
  {| model_id := "model-x";
     api_key := Some "key-x";
     base_url := Some "https://proxy.example";
     format_type := PyEnum YAML;
     temperature := 0.5%float;
     max_workers := 1;
     _client := {| client_api_key := Some "key-x";
                   client_base_url := Some "https://proxy.example" |};
     _extra_kwargs := {[ "seed" := PyInt 7 ]} |}.

(** A backend whose answer depends on the client and the request only. *)
Definition history_independent
    (backend : World → Client → Request → outcome) : Prop :=
  ∀ w w' c req, backend w c req = backend w' c req.

(** Two instances that differ at most in [max_workers]. *)
Definition same_but_workers (self self' : LanguageModel) : Prop :=
  model_id self = model_id self' ∧
  api_key self = api_key self' ∧
  base_url self = base_url self' ∧
  format_type self = format_type self' ∧
  temperature self = temperature self' ∧
  _client self = _client self' ∧
  _extra_kwargs self = _extra_kwargs self'.

(** Two instances with the same fields among those [infer] reads. *)
Definition same_inference_fields (self self' : LanguageModel) : Prop :=
  model_id self = model_id self' ∧
  format_type self = format_type self' ∧
  temperature self = temperature self' ∧
  max_workers self = max_workers self' ∧
  _client self = _client self'.

(** An event that, if it is a call, records an answer of the backend. *)
Definition answered_by (backend : World → Client → Request → outcome)
    (ev : Event) : Prop :=
  match ev with
  | EvCall c req out => ∃ h, out = backend h c req
  | _ => True
  end.

(** The tasks start as in [shuffled] and finish in the order of the batch. *)
Definition shuffled_start : Schedule :=
  {| started := [2; 0; 1]%nat; completed := [0; 1; 2]%nat |}.

(** The slots of a buffer before its first gap. *)
Fixpoint filled_prefix {A} (results : list (option A)) : list A :=
  match results with
  | Some x :: rest => x :: filled_prefix rest
  | _ => []
  end.

(** ** Basic facts *)

Lemma bind_returned {A B} (m : M A) (k : A → M B) w a ys w' :
  m w = mkRes (inr a) ys w' →
  bind m k w =
  mkRes (value (k a w')) (ys ++ yielded (k a w')) (world (k a w')).
Proof. intros Hm. unfold bind. by rewrite Hm. Qed.

Lemma bind_raised {A B} (m : M A) (k : A → M B) w e ys w' :
  m w = mkRes (inl e) ys w' → bind m k w = mkRes (inl e) ys w'.
Proof. intros Hm. unfold bind. by rewrite Hm. Qed.

Lemma new_events_app (w evs : World) : new_events w (w ++ evs) = evs.
Proof. unfold new_events. by rewrite drop_app_length. Qed.

Lemma result_of_inr P out so :
  result_of P out = inr so →
  ∃ t, extracted out = Some t ∧ so = {| score := 1%float; output := t |}.
Proof.
  destruct out as [e|[ts]|e]; simpl; [done| |done].
  destruct ts as [|t ts]; simpl; [done|].
  intros [= <-]. by exists t.
Qed.

Lemma result_of_inl P out e :
  result_of P out = inl e →
  extracted out = None ∧ ∃ e0, e = api_error P e0.
Proof.
  destruct out as [e0|[ts]|e0]; simpl.
  - intros [= <-]. eauto.
  - destruct ts as [|t ts]; simpl; [|done].
    intros [= <-]. eauto.
  - intros [= <-]. eauto.
Qed.

Lemma result_of_extracted P out t :
  extracted out = Some t →
  result_of P out = inr {| score := 1%float; output := t |}.
Proof.
  destruct out as [e|[ts]|e]; simpl; [done| |done].
  destruct ts as [|t' ts]; simpl; [done|]. by intros [= ->].
Qed.

Lemma result_of_failed P out :
  extracted out = None → ∃ e0, result_of P out = inl (api_error P e0).
Proof.
  destruct out as [e|[ts]|e]; simpl; [eauto| |eauto].
  destruct ts as [|t' ts]; simpl; [eauto|done].
Qed.

(** *** Futures and the result buffer *)

Lemma future_of_Some futures i r :
  future_of futures i = Some r → (i, r) ∈ futures.
Proof.
  induction futures as [|[j r'] futures IH]; simpl; [done|].
  case_decide as Hj.
  - intros [= ->]. subst j. left.
  - intros Hr. right. by apply IH.
Qed.

Lemma future_of_elem futures i r :
  NoDup futures.*1 → (i, r) ∈ futures → future_of futures i = Some r.
Proof.
  induction futures as [|[j r'] futures IH]; simpl.
  - by intros _ ?%elem_of_nil.
  - intros [Hj Hnd]%NoDup_cons [[= -> ->]|Hin]%elem_of_cons.
    + by rewrite decide_True.
    + rewrite decide_False; [by apply IH|].
      intros ->. apply Hj. apply list_elem_of_fmap. by exists (i, r).
Qed.

Lemma first_failure_Some futures completed e :
  first_failure futures completed = Some e →
  ∃ i, i ∈ completed ∧ future_of futures i = Some (inl e).
Proof.
  induction completed as [|index rest IH]; simpl; [done|].
  destruct (future_of futures index) as [[e'|r]|] eqn:Hf.
  - intros [= ->]. exists index. split; [left|done].
  - intros (i & Hi & Hfi)%IH. exists i. split; [by right|done].
  - intros (i & Hi & Hfi)%IH. exists i. split; [by right|done].
Qed.

Lemma first_failure_None futures completed i e :
  first_failure futures completed = None →
  i ∈ completed → future_of futures i ≠ Some (inl e).
Proof.
  induction completed as [|index rest IH]; simpl.
  - by intros _ ?%elem_of_nil.
  - destruct (future_of futures index) as [[e'|r]|] eqn:Hf; [done|..];
      intros Hnone [->|Hin]%elem_of_cons; try (by apply IH); by rewrite Hf.
Qed.

Lemma first_failure_is_Some futures completed i e :
  i ∈ completed → future_of futures i = Some (inl e) →
  is_Some (first_failure futures completed).
Proof.
  intros Hin Hf. destruct (first_failure futures completed) eqn:Hff; [done|].
  by destruct (first_failure_None _ _ _ e Hff Hin).
Qed.

Lemma length_fill futures completed results :
  length (fill futures completed results) = length results.
Proof.
  revert results. induction completed as [|index rest IH]; intros results; simpl; [done|].
  destruct (future_of futures index) as [[e|r]|]; rewrite IH; [done| |done].
  by rewrite length_insert.
Qed.

Lemma fill_lookup_keep futures completed results i so :
  future_of futures i = Some (inr so) →
  results !! i = Some (Some so) →
  fill futures completed results !! i = Some (Some so).
Proof.
  intros Hf. revert results.
  induction completed as [|index rest IH]; intros results Hi; simpl; [done|].
  destruct (future_of futures index) as [[e|r]|] eqn:Hfi; try by apply IH.
  apply IH. destruct (decide (index = i)) as [->|Hne].
  - rewrite Hf in Hfi. injection Hfi as ->.
    apply list_lookup_insert_eq. by eapply lookup_lt_Some.
  - by rewrite list_lookup_insert_ne.
Qed.

Lemma fill_lookup futures completed results i so :
  i ∈ completed → (i < length results)%nat →
  future_of futures i = Some (inr so) →
  fill futures completed results !! i = Some (Some so).
Proof.
  intros Hin Hlt Hf. revert results Hlt.
  induction completed as [|index rest IH]; intros results Hlt; simpl.
  - by apply elem_of_nil in Hin.
  - apply elem_of_cons in Hin as [<-|Hin].
    + rewrite Hf. apply fill_lookup_keep; [done|].
      by apply list_lookup_insert_eq.
    + destruct (future_of futures index) as [[e|r]|]; try by apply IH.
      apply IH; [done|]. by rewrite length_insert.
Qed.

(** A buffer without a gap is the list of its contents. *)
Lemma full_buffer {A} (results : list (option A)) :
  (∀ i, (i < length results)%nat → ∃ x, results !! i = Some (Some x)) →
  ∃ xs, results = Some <$> xs.
Proof.
  induction results as [|[x|] results IH]; intros Hfull.
  - by exists [].
  - destruct IH as [xs ->].
    { intros i Hi. apply (Hfull (S i)). simpl. lia. }
    by exists (x :: xs).
  - destruct (Hfull 0%nat) as [x Hx]; [simpl; lia|done].
Qed.

(** *** Tasks *)

Lemma elem_of_tasks_of prompts started i p :
  (i, p) ∈ tasks_of prompts started ↔ i ∈ started ∧ prompts !! i = Some p.
Proof.
  unfold tasks_of. rewrite list_elem_of_omap. split.
  - intros (j & Hj & Hp). destruct (prompts !! j) as [q|] eqn:Hq; simplify_eq/=.
    by split.
  - intros [Hi Hp]. exists i. by rewrite Hp.
Qed.

Lemma tasks_of_fst prompts started :
  (∀ i, i ∈ started → (i < length prompts)%nat) →
  (tasks_of prompts started).*1 = started.
Proof.
  induction started as [|i rest IH]; intros Hlt; [done|].
  unfold tasks_of. simpl. fold (tasks_of prompts rest).
  destruct (lookup_lt_is_Some_2 prompts i) as [p Hp].
  { apply Hlt. left. }
  rewrite Hp. simpl. f_equal. apply IH. intros j Hj. apply Hlt. by right.
Qed.

Lemma futures_for_fst P tasks outs :
  length outs = length tasks → (futures_for P tasks outs).*1 = tasks.*1.
Proof.
  revert outs. induction tasks as [|[i p] tasks IH]; intros [|out outs] Hlen;
    simplify_eq/=; [done|]. f_equal. by apply IH.
Qed.

(** *** Traces of calls *)

Lemma outcomes_of_calls_for P self config prompts outs :
  (length outs ≤ length prompts)%nat →
  outcomes_of (calls_for P self config prompts outs) = outs.
Proof.
  revert outs. induction prompts as [|p prompts IH]; intros [|out outs] Hlen;
    simpl in *; try done; [lia|].
  unfold outcomes_of. simpl. f_equal. apply IH. lia.
Qed.

Lemma requests_of_calls_for P self config prompts outs :
  requests_of (calls_for P self config prompts outs) =
  (λ p, build_request P self p config) <$> take (length outs) prompts.
Proof.
  revert outs. induction prompts as [|p prompts IH]; intros [|out outs];
    simpl; try done.
  unfold requests_of. simpl. f_equal. apply IH.
Qed.

Lemma pools_of_calls_for P self config prompts outs :
  pools_of (calls_for P self config prompts outs) = [].
Proof.
  revert outs. induction prompts as [|p prompts IH]; intros [|out outs];
    simpl; try done.
Qed.

Lemma elem_of_calls_for P self config prompts outs ev :
  ev ∈ calls_for P self config prompts outs →
  ∃ p out, p ∈ prompts ∧ out ∈ outs ∧
    ev = EvCall (_client self) (build_request P self p config) out.
Proof.
  unfold calls_for. intros (j & Hj)%list_elem_of_lookup.
  apply lookup_zip_with_Some in Hj as (p & out & -> & Hp & Hout).
  exists p, out. split_and!; [by eapply list_elem_of_lookup_2..|done].
Qed.

Lemma elem_of_fill futures completed results so :
  Some so ∈ fill futures completed results →
  Some so ∈ results ∨ ∃ i, (i, inr so) ∈ futures.
Proof.
  revert results. induction completed as [|index rest IH]; intros results; simpl.
  - by left.
  - destruct (future_of futures index) as [[e|r]|] eqn:Hf; try apply IH.
    intros [Hin|Hin]%IH; [|by right].
    apply list_elem_of_lookup in Hin as [j Hj].
    destruct (decide (index = j)) as [->|Hne].
    + destruct (decide (j < length results)%nat).
      * rewrite list_lookup_insert_eq in Hj by done. injection Hj as ->.
        right. exists j. by apply future_of_Some.
      * rewrite list_insert_ge in Hj by lia. left. by eapply list_elem_of_lookup_2.
    + rewrite list_lookup_insert_ne in Hj by done.
      left. by eapply list_elem_of_lookup_2.
Qed.

Lemma elem_of_yield_results results w group :
  group ∈ yielded (yield_results results w) →
  ∃ so, group = [so] ∧ Some so ∈ results.
Proof.
  induction results as [|[so|] results IH]; simpl.
  - by intros ?%elem_of_nil.
  - unfold bind, yield. simpl. intros [->|Hin]%elem_of_cons.
    + exists so. split; [done|left].
    + destruct (IH Hin) as (so' & -> & Hso). exists so'. split; [done|by right].
  - by intros ?%elem_of_nil.
Qed.

Lemma elem_of_futures_for P self config tasks outs i r :
  (i, r) ∈ futures_for P tasks outs →
  ∃ p out, (i, p) ∈ tasks ∧ r = result_of P out ∧
    EvCall (_client self) (build_request P self p config) out
      ∈ calls_for P self config tasks.*2 outs.
Proof.
  unfold futures_for. intros (j & Hj)%list_elem_of_lookup.
  apply lookup_zip_with_Some in Hj as ([i' p] & out & [= -> ->] & Ht & Hout).
  exists p, out. split_and!; [by eapply list_elem_of_lookup_2|done|].
  apply list_elem_of_lookup. exists j. unfold calls_for.
  apply lookup_zip_with_Some. exists p, out. split_and!; [done| |done].
  by rewrite list_lookup_fmap, Ht.
Qed.

Lemma elem_of_groups_of P self config prompts outs group :
  (length outs ≤ length prompts)%nat →
  group ∈ groups_of outs →
  ∃ t p out, group = group_of t ∧ extracted out = Some t ∧ p ∈ prompts ∧
    EvCall (_client self) (build_request P self p config) out
      ∈ calls_for P self config prompts outs.
Proof.
  intros Hlen (out & Hout & Hg)%list_elem_of_omap.
  destruct (extracted out) as [t|] eqn:Ht; simplify_eq/=.
  apply list_elem_of_lookup in Hout as [j Hj].
  destruct (lookup_lt_is_Some_2 prompts j) as [p Hp].
  { apply lookup_lt_Some in Hj. lia. }
  exists t, p, out. split_and!; [done..|by eapply list_elem_of_lookup_2|].
  apply list_elem_of_lookup. exists j. unfold calls_for.
  apply lookup_zip_with_Some. by exists p, out.
Qed.

Lemma futures_for_of_out P tasks outs out :
  length outs = length tasks → out ∈ outs →
  ∃ i p, (i, p) ∈ tasks ∧ (i, result_of P out) ∈ futures_for P tasks outs.
Proof.
  intros Hlen (j & Hj)%list_elem_of_lookup.
  destruct (lookup_lt_is_Some_2 tasks j) as [[i p] Ht].
  { apply lookup_lt_Some in Hj. lia. }
  exists i, p. split; [by eapply list_elem_of_lookup_2|].
  apply list_elem_of_lookup. exists j. unfold futures_for.
  apply lookup_zip_with_Some. by exists (i, p), out.
Qed.

Lemma futures_for_of_task P self config tasks outs i p :
  length outs = length tasks → (i, p) ∈ tasks →
  ∃ out, out ∈ outs ∧
    (i, result_of P out) ∈ futures_for P tasks outs ∧
    EvCall (_client self) (build_request P self p config) out
      ∈ calls_for P self config tasks.*2 outs.
Proof.
  intros Hlen (j & Hj)%list_elem_of_lookup.
  destruct (lookup_lt_is_Some_2 outs j) as [out Hout].
  { apply lookup_lt_Some in Hj. lia. }
  exists out. split_and!.
  - by eapply list_elem_of_lookup_2.
  - apply list_elem_of_lookup. exists j. unfold futures_for.
    apply lookup_zip_with_Some. by exists (i, p), out.
  - apply list_elem_of_lookup. exists j. unfold calls_for.
    apply lookup_zip_with_Some. exists p, out. split_and!; [done| |done].
    by rewrite list_lookup_fmap, Hj.
Qed.

Lemma valid_schedule_started prompts sch :
  valid_schedule prompts sch →
  NoDup (started sch) ∧ ∀ i, i ∈ started sch ↔ (i < length prompts)%nat.
Proof.
  intros [Hs _]. split.
  - rewrite Hs. apply NoDup_seq.
  - intros i. rewrite Hs, elem_of_seq. lia.
Qed.

Lemma valid_schedule_completed prompts sch :
  valid_schedule prompts sch →
  ∀ i, i ∈ completed sch ↔ (i < length prompts)%nat.
Proof. intros [_ Hc] i. rewrite Hc, elem_of_seq. lia. Qed.

(** Under a valid schedule the future of every position is the result of
    the call made for the prompt at that position. *)
Lemma pool_future_of_position P self config prompts sch outs i p :
  valid_schedule prompts sch →
  length outs = length (tasks_of prompts (started sch)) →
  prompts !! i = Some p →
  ∃ out, out ∈ outs ∧
    future_of (futures_for P (tasks_of prompts (started sch)) outs) i
      = Some (result_of P out) ∧
    EvCall (_client self) (build_request P self p config) out
      ∈ calls_for P self config (tasks_of prompts (started sch)).*2 outs.
Proof.
  intros Hvalid Hlen Hp.
  destruct (valid_schedule_started _ _ Hvalid) as [Hnd Hin].
  assert (Ht : (i, p) ∈ tasks_of prompts (started sch)).
  { apply elem_of_tasks_of. split; [|done]. apply Hin. by eapply lookup_lt_Some. }
  destruct (futures_for_of_task P self config _ outs i p Hlen Ht)
    as (out & Hout & Hf & Hev).
  exists out. split_and!; [done| |done].
  apply future_of_elem; [|done].
  rewrite futures_for_fst by done. rewrite tasks_of_fst; [done|].
  intros j. apply Hin.
Qed.

(** Under a valid schedule every call of the pool has its future. *)
Lemma pool_future_of_outcome P prompts sch outs out :
  valid_schedule prompts sch →
  length outs = length (tasks_of prompts (started sch)) →
  out ∈ outs →
  ∃ i, i ∈ completed sch ∧
    future_of (futures_for P (tasks_of prompts (started sch)) outs) i
      = Some (result_of P out).
Proof.
  intros Hvalid Hlen Hout.
  destruct (valid_schedule_started _ _ Hvalid) as [Hnd Hin].
  destruct (futures_for_of_out P _ outs out Hlen Hout) as (i & p & Ht & Hf).
  exists i. split.
  - apply (valid_schedule_completed _ _ Hvalid).
    apply elem_of_tasks_of in Ht as [_ Ht]. by eapply lookup_lt_Some.
  - apply future_of_elem; [|done].
    rewrite futures_for_fst by done. rewrite tasks_of_fst; [done|].
    intros j. apply Hin.
Qed.

Lemma groups_of_all_answered outs :
  Forall (λ out, is_Some (extracted out)) outs →
  length (groups_of outs) = length outs ∧
  ∀ i out, outs !! i = Some out →
    ∃ t, extracted out = Some t ∧ groups_of outs !! i = Some (group_of t).
Proof.
  induction 1 as [|out outs [t Ht] Hall [IHlen IH]].
  - split; [done|]. by intros i out ?.
  - unfold groups_of in *. simpl. rewrite Ht. simpl. split.
    + f_equal. exact IHlen.
    + intros [|i] out' Hi; simplify_eq/=; [by exists t|]. by apply IH.
Qed.

Section AdapterFacts.

Variable backend : World → Client → Request → outcome.
Variable P : Provider.
Variable self : LanguageModel.
Variable config : gmap string pyval.

Abbreviation process := (_process_single_prompt backend P self).
Abbreviation request prompt := (build_request P self prompt config).
Abbreviation call prompt out := (EvCall (_client self) (request prompt) out).

(** One prompt: exactly one call, no yield, and a result that is a
    function of the call's outcome. *)
Lemma process_eq prompt w :
  process prompt config w =
  let out := backend w (_client self) (request prompt) in
  mkRes (result_of P out) [] (w ++ [call prompt out]).
Proof.
  unfold _process_single_prompt, try_except, bind, remote_call, first_text.
  simpl. destruct (backend w _ _) as [e|[ts]|e]; simpl; [done| |done].
  by destruct ts.
Qed.

Lemma infer_sequential_cons prompt rest w :
  infer_sequential backend P self config (prompt :: rest) w =
  let out := backend w (_client self) (request prompt) in
  match result_of P out with
  | inl e => mkRes (inl e) [] (w ++ [call prompt out])
  | inr so =>
      let r := infer_sequential backend P self config rest (w ++ [call prompt out]) in
      mkRes (value r) ([so] :: yielded r) (world r)
  end.
Proof.
  simpl. unfold bind at 1. rewrite process_eq. simpl.
  by destruct (result_of P _).
Qed.

(** The sequential branch, described by the outcomes of the calls it made:
    the calls are those of a prefix of the batch, in order; every answered
    call is followed by the yield of its group; the run ends normally after
    the last prompt, or at the first call that fails. *)
Lemma sequential_run prompts w :
  ∃ outs,
    world (infer_sequential backend P self config prompts w)
      = w ++ calls_for P self config prompts outs ∧
    (length outs ≤ length prompts)%nat ∧
    yielded (infer_sequential backend P self config prompts w) = groups_of outs ∧
    ((Forall (λ out, is_Some (extracted out)) outs ∧
      length outs = length prompts ∧
      value (infer_sequential backend P self config prompts w) = inr tt)
     ∨
     (∃ outs' bad e0,
        outs = outs' ++ [bad] ∧
        Forall (λ out, is_Some (extracted out)) outs' ∧
        extracted bad = None ∧
        result_of P bad = inl (api_error P e0) ∧
        value (infer_sequential backend P self config prompts w)
          = inl (api_error P e0))).
Proof.
  revert w. induction prompts as [|prompt rest IH]; intros w.
  - exists []. simpl. rewrite app_nil_r. split_and!; try done. left. by split_and!.
  - rewrite infer_sequential_cons. simpl.
    set (out := backend w _ _).
    destruct (result_of P out) as [e|so] eqn:Hres; simpl.
    + apply result_of_inl in Hres as Hbad. destruct Hbad as [Hbad [e0 ->]].
      exists [out]. unfold groups_of. simpl. rewrite Hbad. simpl.
      split_and!; try done; [by destruct rest|lia|].
      right. exists [], out, e0. by split_and!.
    + apply result_of_inr in Hres as Hok. destruct Hok as [t [Ht ->]].
      destruct (IH (w ++ [call prompt out])) as (outs & Hw & Hlen & Hy & Hcases).
      exists (out :: outs). simpl. rewrite Hw, Hy, <- app_assoc. simpl.
      unfold groups_of at 2. simpl. rewrite Ht. simpl.
      split_and!; try done; [lia|].
      destruct Hcases as [(Hall & Hn & Hv)|(outs' & bad & e0 & -> & Hall & Hb & Hr & Hv)].
      * left. split_and!; [|lia|done]. constructor; [by rewrite Ht|done].
      * right. exists (out :: outs'), bad, e0. split_and!; try done.
        constructor; [by rewrite Ht|done].
Qed.

(** The workers: one call per task, in the order of the schedule; nothing
    is yielded and nothing is raised in the submitting thread. *)
Lemma workers_run prompts started w :
  ∃ outs,
    length outs = length (tasks_of prompts started) ∧
    run_workers backend P self config prompts started w =
    mkRes (inr (futures_for P (tasks_of prompts started) outs)) []
      (w ++ calls_for P self config (tasks_of prompts started).*2 outs).
Proof.
  revert w. induction started as [|i rest IH]; intros w.
  - exists []. simpl. by rewrite app_nil_r.
  - simpl. unfold tasks_of. simpl. fold (tasks_of prompts rest).
    destruct (prompts !! i) as [prompt|] eqn:Hi; simpl; [|apply IH].
    unfold bind at 1, in_future. rewrite process_eq. simpl.
    set (out := backend w _ _).
    destruct (IH (w ++ [call prompt out])) as (outs & Hlen & Heq).
    exists (out :: outs). simpl. split; [by rewrite Hlen|].
    unfold bind, ret. rewrite Heq. simpl. by rewrite <- app_assoc.
Qed.

Lemma collect_results_eq futures completed results w :
  collect_results futures completed results w =
  match first_failure futures completed with
  | Some e => mkRes (inl (parallel_error e)) [] w
  | None => mkRes (inr (fill futures completed results)) [] w
  end.
Proof.
  revert results. induction completed as [|index rest IH]; intros results; simpl.
  - done.
  - destruct (future_of futures index) as [[e|r]|]; simpl.
    + done.
    + unfold bind, try_except, future_result, ret. simpl.
      rewrite IH. by destruct (first_failure futures rest).
    + apply IH.
Qed.

Lemma yield_results_all (sos : list ScoredOutput) w :
  yield_results (Some <$> sos) w = mkRes (inr tt) ((λ so, [so]) <$> sos) w.
Proof.
  unfold fmap. induction sos as [|so sos IH]; simpl; [done|].
  unfold bind, yield. simpl. by rewrite IH.
Qed.

(** The pool branch, described by the outcomes of its workers' calls. *)
Lemma parallel_run prompts sch w :
  ∃ outs,
    length outs = length (tasks_of prompts (started sch)) ∧
    infer_parallel backend P self config prompts sch w =
    let tasks := tasks_of prompts (started sch) in
    let w' :=
      w ++ EvPool (Z.min (max_workers self) (Z.of_nat (length prompts)))
        :: calls_for P self config tasks.*2 outs in
    match first_failure (futures_for P tasks outs) (completed sch) with
    | Some e => mkRes (inl (parallel_error e)) [] w'
    | None =>
        yield_results
          (fill (futures_for P tasks outs) (completed sch)
             (replicate (length prompts) None)) w'
    end.
Proof.
  set (k := Z.min (max_workers self) (Z.of_nat (length prompts))).
  destruct (workers_run prompts (started sch) (w ++ [EvPool k]))
    as (outs & Hlen & Hrun).
  exists outs. split; [done|]. unfold infer_parallel. fold k.
  erewrite bind_returned; [|reflexivity].
  erewrite bind_returned; [|exact Hrun]. simpl.
  rewrite <- app_assoc. simpl.
  destruct (first_failure _ _) as [e|] eqn:Hff.
  - erewrite bind_raised; [done|]. by rewrite collect_results_eq, Hff.
  - erewrite bind_returned; [|by rewrite collect_results_eq, Hff].
    simpl. by destruct (yield_results _ _).
Qed.

End AdapterFacts.

(** The three sampling fields of a request, read from the overrides. *)
Lemma build_request_overrides P self p (kwargs : gmap string pyval) :
  req_temperature (build_request P self p (build_config self kwargs))
    = dict_get kwargs "temperature" (PyFloat (temperature self)) ∧
  req_max_tokens (build_request P self p (build_config self kwargs))
    = dict_get kwargs "max_output_tokens" (default_max_tokens P) ∧
  req_top_p (build_request P self p (build_config self kwargs))
    = dict_get kwargs "top_p" PyNone.
Proof.
  unfold build_request, build_config, dict_get, default_max_tokens. simpl.
  destruct P, (kwargs !! "max_output_tokens"), (kwargs !! "top_p");
    by simplify_map_eq.
Qed.

(** ** Facts about [infer] *)

Section InferFacts.

Variable backend : World → Client → Request → outcome.
Variable P : Provider.
Variable self : LanguageModel.
Variable kwargs : gmap string pyval.

Abbreviation config := (build_config self kwargs).

Lemma world_yield_results results w : world (yield_results results w) = w.
Proof.
  induction results as [|[so|] results IH]; simpl; done.
Qed.

(** [infer] only appends to the trace: a pool at most, and calls, each
    through the instance's client and for a prompt of the batch. *)
Lemma infer_world prompts sch w :
  ∃ evs,
    world (infer backend P self prompts kwargs sch w) = w ++ evs ∧
    Forall (λ ev,
      (∃ k, ev = EvPool k) ∨
      (∃ p out, p ∈ prompts ∧
         ev = EvCall (_client self) (build_request P self p config) out)) evs.
Proof.
  unfold infer. destruct (use_pool self prompts).
  - destruct (parallel_run backend P self config prompts sch w) as (outs & Hlen & ->).
    simpl.
    eexists (EvPool _ :: calls_for P self config (tasks_of prompts (started sch)).*2 outs).
    split.
    + destruct (first_failure _ _); [done|]. by rewrite world_yield_results.
    + constructor; [left; eauto|]. apply Forall_forall. intros ev Hev. right.
      apply elem_of_calls_for in Hev as (p & out & Hp & _ & ->).
      exists p, out. split; [|done].
      apply list_elem_of_fmap in Hp as ([i p'] & -> & Hp).
      apply elem_of_tasks_of in Hp as [_ Hp]. by eapply list_elem_of_lookup_2.
  - destruct (sequential_run backend P self config prompts w)
      as (outs & Hw & _ & _ & _).
    exists (calls_for P self config prompts outs). split; [done|].
    apply Forall_forall. intros ev Hev. right.
    apply elem_of_calls_for in Hev as (p & out & Hp & _ & ->). eauto.
Qed.

(** Whatever [infer] yields is the group of a call it made and that was
    answered with a text. *)
Lemma infer_yielded prompts sch w group :
  group ∈ yielded (infer backend P self prompts kwargs sch w) →
  ∃ t p out,
    group = group_of t ∧ extracted out = Some t ∧ p ∈ prompts ∧
    EvCall (_client self) (build_request P self p config) out
      ∈ trace_of backend P self prompts kwargs sch w.
Proof.
  unfold trace_of, infer. destruct (use_pool self prompts).
  - destruct (parallel_run backend P self config prompts sch w) as (outs & Hlen & ->).
    simpl. destruct (first_failure _ _); simpl; [by intros ?%elem_of_nil|].
    rewrite world_yield_results, new_events_app.
    intros (so & -> & Hso)%elem_of_yield_results.
    apply elem_of_fill in Hso as [Hso|[i Hi]].
    { by apply elem_of_replicate in Hso as [? _]. }
    apply (elem_of_futures_for P self config) in Hi as (p & out & Hp & Hr & Hev).
    symmetry in Hr. apply result_of_inr in Hr as (t & Ht & ->).
    exists t, p, out. split_and!; [done..| |by right].
    apply elem_of_tasks_of in Hp as [_ Hp]. by eapply list_elem_of_lookup_2.
  - destruct (sequential_run backend P self config prompts w)
      as (outs & -> & Hlen & -> & _).
    rewrite new_events_app. by apply elem_of_groups_of.
Qed.

(** The sequential branch of [infer], read from its trace. *)
Lemma infer_sequential_cases prompts sch w :
  use_pool self prompts = false →
  ∃ outs,
    trace_of backend P self prompts kwargs sch w
      = calls_for P self config prompts outs ∧
    outcomes_of (trace_of backend P self prompts kwargs sch w) = outs ∧
    yielded (infer backend P self prompts kwargs sch w) = groups_of outs ∧
    ((Forall (λ out, is_Some (extracted out)) outs ∧
      length outs = length prompts ∧
      value (infer backend P self prompts kwargs sch w) = inr tt)
     ∨
     (∃ outs' bad e0,
        outs = outs' ++ [bad] ∧
        (length outs' < length prompts)%nat ∧
        Forall (λ out, is_Some (extracted out)) outs' ∧
        extracted bad = None ∧
        value (infer backend P self prompts kwargs sch w)
          = inl (api_error P e0))).
Proof.
  intros Hmode. unfold trace_of, infer. rewrite Hmode.
  destruct (sequential_run backend P self config prompts w)
    as (outs & -> & Hlen & -> & Hcases).
  exists outs. rewrite new_events_app. split_and!; try done.
  - by apply outcomes_of_calls_for.
  - destruct Hcases as [?|(outs' & bad & e0 & -> & Hall & Hbad & _ & Hv)]; [by left|].
    right. exists outs', bad, e0. split_and!; try done.
    rewrite length_app in Hlen. simpl in Hlen. lia.
Qed.

(** The pool branch of [infer] under a valid schedule, read from its
    trace: either every call was answered, and then every position of the
    batch has its group at the same position of the output; or some call
    failed, and then nothing is yielded and the exception raised wraps the
    exception [_process_single_prompt] raised for a failed call. *)
Lemma infer_pool_cases prompts sch w :
  use_pool self prompts = true →
  valid_schedule prompts sch →
  ∃ outs,
    outcomes_of (trace_of backend P self prompts kwargs sch w) = outs ∧
    ((Forall (λ out, is_Some (extracted out)) outs ∧
      value (infer backend P self prompts kwargs sch w) = inr tt ∧
      length (yielded (infer backend P self prompts kwargs sch w))
        = length prompts ∧
      ∀ i p, prompts !! i = Some p →
        ∃ out t,
          EvCall (_client self) (build_request P self p config) out
            ∈ trace_of backend P self prompts kwargs sch w ∧
          extracted out = Some t ∧
          yielded (infer backend P self prompts kwargs sch w) !! i
            = Some (group_of t))
     ∨
     (∃ bad e0,
        bad ∈ outs ∧ extracted bad = None ∧
        result_of P bad = inl (api_error P e0) ∧
        value (infer backend P self prompts kwargs sch w)
          = inl (parallel_error (api_error P e0)) ∧
        yielded (infer backend P self prompts kwargs sch w) = [])).
Proof.
  intros Hmode Hvalid. unfold trace_of, infer. rewrite Hmode.
  destruct (parallel_run backend P self config prompts sch w) as (outs & Hlen & ->).
  simpl. set (tasks := tasks_of prompts (started sch)) in *.
  set (futures := futures_for P tasks outs).
  set (k := Z.min _ _).
  exists outs.
  assert (Houts : outcomes_of (EvPool k :: calls_for P self config tasks.*2 outs) = outs).
  { unfold outcomes_of. simpl. apply outcomes_of_calls_for.
    rewrite length_fmap. lia. }
  destruct (first_failure futures (completed sch)) as [e|] eqn:Hff; simpl.
  - rewrite new_events_app. split; [done|]. right.
    apply first_failure_Some in Hff as (i & _ & Hf).
    apply future_of_Some in Hf.
    apply (elem_of_futures_for P self config) in Hf as (p & bad & _ & Hr & Hev).
    apply elem_of_calls_for in Hev as (p' & bad' & _ & Hbad & [= _ <-]).
    symmetry in Hr. apply result_of_inl in Hr as Hnone.
    destruct Hnone as (Hnone & e0 & ->).
    by exists bad, e0.
  - rewrite world_yield_results, new_events_app. split; [done|]. left.
    assert (Hall : Forall (λ out, is_Some (extracted out)) outs).
    { apply Forall_forall. intros out Hout.
      destruct (pool_future_of_outcome P prompts sch outs out Hvalid Hlen Hout)
        as (i & Hi & Hf).
      destruct (extracted out) as [t|] eqn:Ht; [done|].
      destruct (result_of_failed P out Ht) as [e0 He0].
      fold tasks in Hf. fold futures in Hf. rewrite He0 in Hf.
      by destruct (first_failure_None _ _ _ _ Hff Hi Hf). }
    assert (Hslot : ∀ i p, prompts !! i = Some p →
              ∃ out t,
                EvCall (_client self) (build_request P self p config) out
                  ∈ EvPool k :: calls_for P self config tasks.*2 outs ∧
                extracted out = Some t ∧
                fill futures (completed sch) (replicate (length prompts) None) !! i
                  = Some (Some {| score := 1%float; output := t |})).
    { intros i p Hp.
      destruct (pool_future_of_position P self config prompts sch outs i p
                  Hvalid Hlen Hp) as (out & Hout & Hf & Hev).
      rewrite Forall_forall in Hall. destruct (Hall out Hout) as [t Ht].
      exists out, t. split_and!; [by right|done|].
      apply fill_lookup.
      - apply (valid_schedule_completed _ _ Hvalid). by eapply lookup_lt_Some.
      - rewrite length_replicate. by eapply lookup_lt_Some.
      - fold tasks in Hf. fold futures in Hf. rewrite Hf.
        by rewrite (result_of_extracted P out t Ht). }
    destruct (full_buffer (fill futures (completed sch) (replicate (length prompts) None)))
      as [sos Hsos].
    { intros i Hi. rewrite length_fill, length_replicate in Hi.
      destruct (lookup_lt_is_Some_2 prompts i Hi) as [p Hp].
      destruct (Hslot i p Hp) as (out & t & _ & _ & Hfill). eauto. }
    rewrite Hsos in *. rewrite yield_results_all. simpl. split_and!; try done.
    + rewrite length_fmap. rewrite <- (length_fmap Some sos), <- Hsos.
      by rewrite length_fill, length_replicate.
    + intros i p Hp. destruct (Hslot i p Hp) as (out & t & Hev & Ht & Hfill).
      exists out, t. split_and!; try done.
      rewrite ?Hsos, list_lookup_fmap in Hfill. rewrite list_lookup_fmap.
      destruct (sos !! i) as [so|]; simplify_eq/=. done.
Qed.

Lemma infer_extends prompts sch w :
  world (infer backend P self prompts kwargs sch w) =
  w ++ trace_of backend P self prompts kwargs sch w.
Proof.
  unfold trace_of. destruct (infer_world prompts sch w) as (evs & Hw & _).
  by rewrite Hw, new_events_app.
Qed.

Lemma infer_calls prompts sch w c req out :
  EvCall c req out ∈ trace_of backend P self prompts kwargs sch w →
  c = _client self ∧ ∃ p, p ∈ prompts ∧ req = build_request P self p config.
Proof.
  unfold trace_of. destruct (infer_world prompts sch w) as (evs & Hw & Hevs).
  rewrite Hw, new_events_app. intros Hin.
  rewrite Forall_forall in Hevs. destruct (Hevs _ Hin) as [[k [=]]|(p & o & Hp & [= -> -> ->])].
  eauto.
Qed.

End InferFacts.

(** *** The pool branch: its trace *)

Lemma tasks_of_seq prompts :
  tasks_of prompts (seq 0 (length prompts)) = imap (λ i p, (i, p)) prompts.
Proof.
  induction prompts as [|p prompts IH] using rev_ind; [done|].
  rewrite length_app, imap_app. simpl.
  rewrite Nat.add_1_r, seq_S. unfold tasks_of in *. rewrite omap_app. simpl.
  rewrite Nat.add_0_r, list_lookup_middle by done. simpl. f_equal.
  rewrite <- IH. apply list_omap_ext. apply Forall2_same_length_lookup_2; [done|].
  intros i x y Hx Hy. simplify_eq. apply lookup_seq in Hx as [-> Hi].
  simpl. by rewrite lookup_app_l.
Qed.

Lemma tasks_of_valid prompts sch :
  valid_schedule prompts sch →
  (tasks_of prompts (started sch)).*2 ≡ₚ prompts.
Proof.
  intros [Hs _]. unfold tasks_of. rewrite Hs. fold (tasks_of prompts (seq 0 (length prompts))).
  rewrite tasks_of_seq, fmap_imap.
  rewrite (imap_ext _ (const id)) by done.
  by rewrite imap_const, list_fmap_id.
Qed.

Lemma infer_pool_trace backend P self kwargs prompts sch w :
  use_pool self prompts = true →
  ∃ outs,
    length outs = length (tasks_of prompts (started sch)) ∧
    trace_of backend P self prompts kwargs sch w
      = EvPool (Z.min (max_workers self) (Z.of_nat (length prompts)))
        :: calls_for P self (build_config self kwargs)
             (tasks_of prompts (started sch)).*2 outs.
Proof.
  intros Hmode. unfold trace_of, infer. rewrite Hmode.
  destruct (parallel_run backend P self (build_config self kwargs) prompts sch w)
    as (outs & Hlen & ->). simpl.
  exists outs. split; [done|].
  destruct (first_failure _ _); simpl;
    by rewrite ?world_yield_results, new_events_app.
Qed.

(** Under a valid schedule the pool sends the requests of the batch, each
    once, in the order of the schedule. *)
Lemma infer_pool_requests backend P self kwargs prompts sch w :
  use_pool self prompts = true →
  valid_schedule prompts sch →
  requests_of (trace_of backend P self prompts kwargs sch w)
    ≡ₚ (λ p, build_request P self p (build_config self kwargs)) <$> prompts.
Proof.
  intros Hmode Hvalid.
  destruct (infer_pool_trace backend P self kwargs prompts sch w Hmode)
    as (outs & Hlen & ->).
  pose proof (tasks_of_valid prompts sch Hvalid) as Hperm.
  assert (Hn : length (tasks_of prompts (started sch)).*2 = length outs).
  { by rewrite length_fmap. }
  unfold requests_of. simpl.
  change (omap _ (calls_for ?a ?b ?c ?d ?e)) with (requests_of (calls_for a b c d e)).
  rewrite requests_of_calls_for, <- Hn, firstn_all. by rewrite Hperm.
Qed.

(** ** The properties of the adapters *)

(** C8.  An empty batch: [infer] yields nothing, raises nothing and leaves
    the trace as it was (no pool is opened, no remote call is made), for
    both providers, whatever the instance, the overrides and the schedule. *)
Theorem C8_empty_batch backend P self kwargs sch w :
  infer backend P self [] kwargs sch w = mkRes (inr tt) [] w.
Proof. unfold infer, use_pool. simpl. done. Qed.

(** C10.  Processing a prompt makes one call, and the messages of its
    request are: for the format JSON the system directive naming JSON and
    then the user prompt; for the format YAML the system directive naming
    YAML and then the user prompt; for any other value of [format_type]
    the user prompt alone. *)
Theorem C10_message_sequence backend P self prompt config w :
  ∃ req out,
    world (_process_single_prompt backend P self prompt config w)
      = w ++ [EvCall (_client self) req out] ∧
    req_messages req =
      match format_type self with
      | PyEnum JSON =>
          [ {| role := "system";
               content := "You are a helpful assistant that responds in JSON format." |};
            {| role := "user"; content := prompt |} ]
      | PyEnum YAML =>
          [ {| role := "system";
               content := "You are a helpful assistant that responds in YAML format." |};
            {| role := "user"; content := prompt |} ]
      | _ => [ {| role := "user"; content := prompt |} ]
      end.
Proof.
  rewrite process_eq. simpl. eexists _, _. split; [reflexivity|].
  unfold build_request, build_messages, system_message. simpl.
  by destruct (format_type self) as [| | | |[]].
Qed.

(** C6.  Every remote call of an [infer] call carries: as temperature the
    override when the key is present and the instance's temperature
    otherwise; as [max_tokens] the override when present and the provider's
    constant otherwise; as [top_p] the override when present and [None]
    otherwise, so an absent [top_p] is passed unset.  Nothing else of the
    request depends on the overrides: the model is the instance's and the
    messages are those of a prompt of the batch. *)
Theorem C6_overrides backend P self prompts kwargs sch w c req out :
  EvCall c req out ∈ trace_of backend P self prompts kwargs sch w →
  req_temperature req = dict_get kwargs "temperature" (PyFloat (temperature self)) ∧
  req_max_tokens req = dict_get kwargs "max_output_tokens" (default_max_tokens P) ∧
  req_top_p req = dict_get kwargs "top_p" PyNone ∧
  (kwargs !! "top_p" = None → req_top_p req = PyNone) ∧
  req_model req = model_id self ∧
  ∃ p, p ∈ prompts ∧ req_messages req = build_messages self p.
Proof.
  intros (-> & p & Hp & ->)%infer_calls.
  destruct (build_request_overrides P self p kwargs) as (Htemp & Hmax & Htop).
  split_and!; try done.
  - intros Hnone. rewrite Htop. unfold dict_get. by rewrite Hnone.
  - by exists p.
Qed.

(** C6 on the sample instance: a temperature override, an unknown key and
    no [top_p]. *)
Lemma C6_overrides_witness :
  EvCall sample_client hello_request (Returns {| texts := ["re:hello"] |})
    ∈ trace_of sim_backend Anthropic (sample_model 1) ["hello"] hello_kwargs
        (in_order 1) []
  ∧ (req_temperature hello_request
       = dict_get hello_kwargs "temperature" (PyFloat (temperature (sample_model 1))) ∧
     req_max_tokens hello_request
       = dict_get hello_kwargs "max_output_tokens" (default_max_tokens Anthropic) ∧
     req_top_p hello_request = dict_get hello_kwargs "top_p" PyNone ∧
     (hello_kwargs !! "top_p" = None → req_top_p hello_request = PyNone) ∧
     req_model hello_request = model_id (sample_model 1) ∧
     ∃ p, p ∈ ["hello"] ∧ req_messages hello_request = build_messages (sample_model 1) p).
Proof.
  assert (H : EvCall sample_client hello_request (Returns {| texts := ["re:hello"] |})
    ∈ trace_of sim_backend Anthropic (sample_model 1) ["hello"] hello_kwargs
        (in_order 1) []).
  { vm_compute. left. }
  split; [exact H|].
  exact (C6_overrides sim_backend Anthropic (sample_model 1) ["hello"] hello_kwargs
           (in_order 1) [] _ _ _ H).
Defined.

(** C9.  Without a [max_output_tokens] override, every remote call of an
    [infer] call carries [max_tokens = 4096] for the Anthropic adapter and
    [max_tokens = None] for the Mistral adapter, whatever the instance. *)
Theorem C9_default_max_tokens backend P self prompts kwargs sch w c req out :
  kwargs !! "max_output_tokens" = None →
  EvCall c req out ∈ trace_of backend P self prompts kwargs sch w →
  req_max_tokens req =
    match P with Anthropic => PyInt 4096 | Mistral => PyNone end.
Proof.
  intros Hnone (-> & p & Hp & ->)%infer_calls.
  destruct (build_request_overrides P self p kwargs) as (_ & -> & _).
  unfold dict_get. rewrite Hnone. by destruct P.
Qed.

(** C9 on the sample instance, for the Anthropic adapter. *)
Lemma C9_default_max_tokens_witness :
  (hello_kwargs !! "max_output_tokens" = None ∧
   EvCall sample_client hello_request (Returns {| texts := ["re:hello"] |})
     ∈ trace_of sim_backend Anthropic (sample_model 1) ["hello"] hello_kwargs
         (in_order 1) [])
  ∧ req_max_tokens hello_request = PyInt 4096.
Proof.
  assert (H : EvCall sample_client hello_request (Returns {| texts := ["re:hello"] |})
    ∈ trace_of sim_backend Anthropic (sample_model 1) ["hello"] hello_kwargs
        (in_order 1) []).
  { vm_compute. left. }
  split; [split; [reflexivity|exact H]|].
  exact (C9_default_max_tokens sim_backend Anthropic (sample_model 1) ["hello"]
           hello_kwargs (in_order 1) [] _ _ _ eq_refl H).
Defined.

(** C5.  When the batch has more than one prompt and [max_workers] is
    greater than one, [infer] opens one thread pool, of size
    [min(max_workers, len(batch_prompts))], and under a valid schedule
    sends the request of every prompt, each once.  In every other case it
    opens no pool and makes its calls one after the other in the order of
    the batch: a run that ends normally has sent the requests of all the
    prompts, in order, and all were answered; a run that raises has sent
    the requests of the prompts up to and including the first one whose
    call failed, in order, and none after it. *)
Theorem C5_execution_mode backend P self prompts kwargs sch w :
  world (infer backend P self prompts kwargs sch w)
    = w ++ trace_of backend P self prompts kwargs sch w ∧
  if bool_decide ((1 < length prompts)%nat ∧ 1 < max_workers self)
  then pools_of (trace_of backend P self prompts kwargs sch w)
         = [Z.min (max_workers self) (Z.of_nat (length prompts))] ∧
       (valid_schedule prompts sch →
        requests_of (trace_of backend P self prompts kwargs sch w)
          ≡ₚ (λ p, build_request P self p (build_config self kwargs)) <$> prompts)
  else pools_of (trace_of backend P self prompts kwargs sch w) = [] ∧
       match value (infer backend P self prompts kwargs sch w) with
       | inr _ =>
           requests_of (trace_of backend P self prompts kwargs sch w)
             = (λ p, build_request P self p (build_config self kwargs)) <$> prompts ∧
           Forall (λ out, is_Some (extracted out))
             (outcomes_of (trace_of backend P self prompts kwargs sch w))
       | inl _ =>
           ∃ outs bad,
             outcomes_of (trace_of backend P self prompts kwargs sch w)
               = outs ++ [bad] ∧
             Forall (λ out, is_Some (extracted out)) outs ∧
             extracted bad = None ∧
             (length outs < length prompts)%nat ∧
             requests_of (trace_of backend P self prompts kwargs sch w)
               = (λ p, build_request P self p (build_config self kwargs))
                   <$> take (S (length outs)) prompts
       end.
Proof.
  split; [apply infer_extends|].
  assert (Hpool : use_pool self prompts
                  = bool_decide ((1 < length prompts)%nat ∧ 1 < max_workers self)).
  { unfold use_pool.
    destruct (1 <? Z.of_nat (length prompts)) eqn:Hn,
             (1 <? max_workers self) eqn:Hk; simpl; symmetry;
      [apply bool_decide_eq_true|apply bool_decide_eq_false..]; lia. }
  rewrite <- Hpool. destruct (use_pool self prompts) eqn:Hmode.
  - split; [|by apply infer_pool_requests].
    destruct (infer_pool_trace backend P self kwargs prompts sch w Hmode)
      as (outs & _ & ->).
    unfold pools_of. simpl. f_equal. apply pools_of_calls_for.
  - destruct (infer_sequential_cases backend P self kwargs prompts sch w Hmode)
      as (outs & Htrace & Houts & _ & Hcases).
    split; [rewrite Htrace; apply pools_of_calls_for|].
    destruct Hcases as [(Hall & Hlen & ->)|(outs' & bad & e0 & -> & Hlt & Hall & Hbad & ->)].
    + split; [|by rewrite Houts].
      by rewrite Htrace, requests_of_calls_for, Hlen, firstn_all.
    + exists outs', bad. split_and!; try done.
      rewrite Htrace, requests_of_calls_for, length_app. simpl.
      by rewrite Nat.add_1_r.
Qed.

(** C7.  A Scored Output exists only for a call that returned a response
    with at least one content element; its score is the constant 1.0 and
    its text is the first text of that response.  This holds for the result
    of processing one prompt and for every group [infer] yields, which is
    always a single Scored Output. *)
Theorem C7_constant_score backend P self :
  (∀ prompt config w so,
     value (_process_single_prompt backend P self prompt config w) = inr so →
     score so = 1%float ∧
     ∃ resp,
       backend w (_client self) (build_request P self prompt config) = Returns resp ∧
       head (texts resp) = Some (output so)) ∧
  (∀ prompts kwargs sch w group,
     group ∈ yielded (infer backend P self prompts kwargs sch w) →
     ∃ so c req resp,
       group = [so] ∧ score so = 1%float ∧
       EvCall c req (Returns resp) ∈ trace_of backend P self prompts kwargs sch w ∧
       head (texts resp) = Some (output so)).
Proof.
  split.
  - intros prompt config w so. rewrite process_eq. simpl.
    intros (t & Ht & ->)%result_of_inr. split; [done|].
    destruct (backend w _ _) as [e|resp|e]; simplify_eq/=. by exists resp.
  - intros prompts kwargs sch w group
      (t & p & out & -> & Ht & _ & Hev)%infer_yielded.
    destruct out as [e|resp|e]; simplify_eq/=.
    by exists {| score := 1%float; output := t |}, (_client self),
      (build_request P self p (build_config self kwargs)), resp.
Qed.

(** C2.  When no call of an [infer] call fails, [infer] ends without an
    exception and yields as many groups as the batch has prompts; the group
    at position [i] is the single Scored Output made from the answer to the
    call for the prompt at position [i].  In the pool branch this holds for
    every order in which the workers start and finish. *)
Theorem C2_one_output_per_prompt backend P self prompts kwargs sch w :
  (use_pool self prompts = true → valid_schedule prompts sch) →
  (∀ out, out ∈ outcomes_of (trace_of backend P self prompts kwargs sch w) →
          is_Some (extracted out)) →
  value (infer backend P self prompts kwargs sch w) = inr tt ∧
  length (yielded (infer backend P self prompts kwargs sch w)) = length prompts ∧
  ∀ i p, prompts !! i = Some p →
    ∃ out t,
      EvCall (_client self) (build_request P self p (build_config self kwargs)) out
        ∈ trace_of backend P self prompts kwargs sch w ∧
      extracted out = Some t ∧
      yielded (infer backend P self prompts kwargs sch w) !! i
        = Some [{| score := 1%float; output := t |}].
Proof.
  intros Hvalid Hok. destruct (use_pool self prompts) eqn:Hmode.
  - destruct (infer_pool_cases backend P self kwargs prompts sch w Hmode (Hvalid eq_refl))
      as (outs & Houts & [(_ & Hv & Hlen & Hpos)|(bad & e0 & Hbad & Hnone & _)]).
    + by split_and!.
    + rewrite <- Houts in Hbad. destruct (Hok bad Hbad) as [t Ht]. congruence.
  - destruct (infer_sequential_cases backend P self kwargs prompts sch w Hmode)
      as (outs & Htrace & Houts & Hy & [(Hall & Hlen & Hv)|(outs' & bad & e0 & -> & _ & _ & Hnone & _)]).
    + destruct (groups_of_all_answered outs Hall) as [Hglen Hgpos].
      split_and!; [done|by rewrite Hy, Hglen|].
      intros i p Hp.
      destruct (lookup_lt_is_Some_2 outs i) as [out Hout].
      { rewrite Hlen. by eapply lookup_lt_Some. }
      destruct (Hgpos i out Hout) as (t & Ht & Hg).
      exists out, t. split_and!; [|done|by rewrite Hy].
      rewrite Htrace. apply list_elem_of_lookup. exists i. unfold calls_for.
      apply lookup_zip_with_Some. by exists p, out.
    + destruct (Hok bad) as [t Ht]; [|congruence].
      rewrite Houts. apply elem_of_app. right. left.
Qed.

(** C2 on three prompts whose calls start and finish out of order. *)
Lemma C2_one_output_per_prompt_witness :
  (use_pool (sample_model 8) ["a"; "b"; "c"] = true →
   valid_schedule ["a"; "b"; "c"] shuffled) ∧
  (∀ out, out ∈ outcomes_of
                  (trace_of sim_backend Mistral (sample_model 8) ["a"; "b"; "c"] ∅ shuffled []) →
          is_Some (extracted out)) ∧
  (value (infer sim_backend Mistral (sample_model 8) ["a"; "b"; "c"] ∅ shuffled []) = inr tt ∧
   length (yielded (infer sim_backend Mistral (sample_model 8) ["a"; "b"; "c"] ∅ shuffled []))
     = length ["a"; "b"; "c"] ∧
   ∀ i p, ["a"; "b"; "c"] !! i = Some p →
     ∃ out t,
       EvCall (_client (sample_model 8))
           (build_request Mistral (sample_model 8) p (build_config (sample_model 8) ∅)) out
         ∈ trace_of sim_backend Mistral (sample_model 8) ["a"; "b"; "c"] ∅ shuffled [] ∧
       extracted out = Some t ∧
       yielded (infer sim_backend Mistral (sample_model 8) ["a"; "b"; "c"] ∅ shuffled []) !! i
         = Some [{| score := 1%float; output := t |}]).
Proof.
  assert (Hvalid : use_pool (sample_model 8) ["a"; "b"; "c"] = true →
                   valid_schedule ["a"; "b"; "c"] shuffled).
  { intros _. split; simpl.
    - apply (bool_decide_unpack _). vm_compute. exact I.
    - apply (bool_decide_unpack _). vm_compute. exact I. }
  assert (Hok : ∀ out, out ∈ outcomes_of
                  (trace_of sim_backend Mistral (sample_model 8) ["a"; "b"; "c"] ∅ shuffled []) →
          is_Some (extracted out)).
  { intros out Hout. vm_compute in Hout.
    repeat (apply elem_of_cons in Hout as [->|Hout]); try (by eexists).
    by apply elem_of_nil in Hout. }
  split; [exact Hvalid|]. split; [exact Hok|].
  exact (C2_one_output_per_prompt sim_backend Mistral (sample_model 8)
           ["a"; "b"; "c"] ∅ shuffled [] Hvalid Hok).
Defined.

(** C1, at a failing input.  With one worker and the batch "ok", "bad",
    the call for "bad" fails and [infer] raises an
    [InferenceRuntimeError], but the Scored Output of "ok" has been yielded
    before: the sequential branch gives a partial result.  With two
    workers, on the same batch, nothing is yielded. *)
Lemma C1_sequential_yields_before_failure :
  (1 < length ["ok"; "bad"])%nat ∧
  Raises (SDKError "boom")
    ∈ outcomes_of (trace_of sim_backend Anthropic (sample_model 1) ["ok"; "bad"] ∅ (in_order 2) []) ∧
  value (infer sim_backend Anthropic (sample_model 1) ["ok"; "bad"] ∅ (in_order 2) [])
    = inl (InferenceRuntimeError "Anthropic API error: boom" (Some (SDKError "boom"))) ∧
  yielded (infer sim_backend Anthropic (sample_model 1) ["ok"; "bad"] ∅ (in_order 2) [])
    = [[{| score := 1%float; output := "re:ok" |}]] ∧
  yielded (infer sim_backend Anthropic (sample_model 1) ["ok"; "bad"] ∅ (in_order 2) [])
    ≠ [] ∧
  yielded (infer sim_backend Anthropic (sample_model 2) ["ok"; "bad"] ∅ (in_order 2) [])
    = [].
Proof.
  split_and!.
  - simpl. lia.
  - vm_compute. right. left.
  - vm_compute. reflexivity.
  - vm_compute. reflexivity.
  - vm_compute. discriminate.
  - vm_compute. reflexivity.
Qed.

(** C3 (as the code behaves).  The constructor raises its
    [InferenceConfigError] when the provider's package cannot be imported
    or the argument [api_key] is [None] or empty; it does so before the
    client class of the SDK is called, so no client is opened and nothing
    is sent.  When both checks pass, the outcome is that of the client
    class, called with the key and the base URL: an exception it raises
    leaves the constructor as it is, and otherwise construction succeeds
    with the handle it returned.  The environment variables play no
    part. *)
Theorem C3_construction sdk P rt a w :
  (if negb (bool_decide (package P ∈ importable rt)) || negb (truthy (arg_api_key a))
   then failed_with_config_error (init sdk P rt a w) = true ∧
        world (init sdk P rt a w) = w ∧
        ∀ sdk', init sdk' P rt a w = init sdk P rt a w
   else match sdk P (client_keywords P a) with
        | inl e => init sdk P rt a w = mkRes (inl e) [] w
        | inr client =>
            value (init sdk P rt a w)
              = inr {| model_id := arg_model_id a;
                       api_key := arg_api_key a;
                       base_url := arg_base_url a;
                       format_type := arg_format_type a;
                       temperature := arg_temperature a;
                       max_workers := arg_max_workers a;
                       _client := client;
                       _extra_kwargs := arg_kwargs a |} ∧
            world (init sdk P rt a w) = w ++ [EvClient client]
        end) ∧
  (∀ env, init sdk P {| importable := importable rt; environ := env |} a w
          = init sdk P rt a w).
Proof.
  unfold failed_with_config_error, init, bind, try_except,
    import_package, open_client, emit, raise, ret.
  split; [|done].
  case_decide as Hpkg; simpl.
  - rewrite bool_decide_eq_true_2 by done. simpl.
    destruct (truthy (arg_api_key a)); simpl; [|done].
    by destruct (sdk P (client_keywords P a)).
  - rewrite bool_decide_eq_false_2 by done. simpl. by split_and!.
Qed.

(** C3, the claim as stated, fails: with the package installed and a
    credential in the environment, construction without an explicit
    [api_key] does not succeed, it raises [InferenceConfigError]. *)
Lemma C3_environment_credential_ignored :
  package Anthropic ∈ importable sample_runtime ∧
  environ sample_runtime !! "ANTHROPIC_API_KEY" = Some "sk-env" ∧
  arg_api_key (default_args Anthropic) = None ∧
  value (init sample_sdk Anthropic sample_runtime (default_args Anthropic) [])
    = inl (InferenceConfigError "API key not provided for Anthropic." None) ∧
  succeeded (init sample_sdk Anthropic sample_runtime (default_args Anthropic) []) = false.
Proof.
  split_and!.
  - apply (bool_decide_unpack _). vm_compute. exact I.
  - vm_compute. reflexivity.
  - reflexivity.
  - vm_compute. reflexivity.
  - vm_compute. reflexivity.
Qed.

(** C4, at a failing input.  With two workers and the batch "ok", "bad",
    the remote call for "bad" raises [SDKError "boom"].  The exception
    [infer] raises does not carry that exception as its [original]: it
    carries the [InferenceRuntimeError] that [_process_single_prompt] had
    already built around it.  With one worker, on the same batch, the
    exception raised carries [SDKError "boom"] itself. *)
Theorem C4_pool_wraps_the_wrapper :
  Raises (SDKError "boom")
    ∈ outcomes_of (trace_of sim_backend Anthropic (sample_model 2) ["ok"; "bad"] ∅ (in_order 2) []) ∧
  value (infer sim_backend Anthropic (sample_model 2) ["ok"; "bad"] ∅ (in_order 2) [])
    = inl (InferenceRuntimeError
             "Parallel inference error: Anthropic API error: boom"
             (Some (InferenceRuntimeError "Anthropic API error: boom"
                      (Some (SDKError "boom"))))) ∧
  value (infer sim_backend Anthropic (sample_model 1) ["ok"; "bad"] ∅ (in_order 2) [])
    = inl (InferenceRuntimeError "Anthropic API error: boom"
             (Some (SDKError "boom"))).
Proof.
  split_and!.
  - vm_compute. right. left.
  - vm_compute. reflexivity.
  - vm_compute. reflexivity.
Qed.

(** ** Further properties of the adapters *)

(** X1.  In the pool branch, under a valid schedule, every prompt of the
    batch gets exactly one remote call, whether calls fail or not: the
    requests on the trace are the requests of the batch up to their order,
    nothing is sent twice and no task is dropped after a failure. *)
Theorem X1_pool_calls_each_prompt_once backend P self prompts kwargs sch w :
  use_pool self prompts = true →
  valid_schedule prompts sch →
  requests_of (trace_of backend P self prompts kwargs sch w)
    ≡ₚ (λ p, build_request P self p (build_config self kwargs)) <$> prompts ∧
  length (outcomes_of (trace_of backend P self prompts kwargs sch w))
    = length prompts.
Proof.
  intros Hmode Hvalid.
  destruct (infer_pool_trace backend P self kwargs prompts sch w Hmode)
    as (outs & Hlen & ->).
  pose proof (tasks_of_valid prompts sch Hvalid) as Hperm.
  assert (Hn : length (tasks_of prompts (started sch)).*2 = length outs).
  { by rewrite length_fmap. }
  split.
  - unfold requests_of. simpl.
    change (omap _ (calls_for ?a ?b ?c ?d ?e)) with (requests_of (calls_for a b c d e)).
    rewrite requests_of_calls_for, <- Hn, firstn_all. by rewrite Hperm.
  - unfold outcomes_of. simpl.
    change (omap _ (calls_for ?a ?b ?c ?d ?e)) with (outcomes_of (calls_for a b c d e)).
    rewrite outcomes_of_calls_for by lia.
    rewrite <- Hn. by rewrite Hperm.
Qed.

(** X1 on three prompts in the pool, one of which fails. *)
Lemma X1_pool_calls_each_prompt_once_witness :
  use_pool (sample_model 4) ["ok"; "bad"; "late"] = true ∧
  valid_schedule ["ok"; "bad"; "late"] shuffled ∧
  (requests_of (trace_of sim_backend Anthropic (sample_model 4)
                  ["ok"; "bad"; "late"] ∅ shuffled [])
     ≡ₚ (λ p, build_request Anthropic (sample_model 4) p
                (build_config (sample_model 4) ∅)) <$> ["ok"; "bad"; "late"] ∧
   length (outcomes_of (trace_of sim_backend Anthropic (sample_model 4)
                          ["ok"; "bad"; "late"] ∅ shuffled []))
     = length ["ok"; "bad"; "late"]).
Proof.
  assert (Hmode : use_pool (sample_model 4) ["ok"; "bad"; "late"] = true)
    by reflexivity.
  assert (Hvalid : valid_schedule ["ok"; "bad"; "late"] shuffled).
  { split; simpl.
    - apply (bool_decide_unpack _). vm_compute. exact I.
    - apply (bool_decide_unpack _). vm_compute. exact I. }
  split; [exact Hmode|]. split; [exact Hvalid|].
  exact (X1_pool_calls_each_prompt_once sim_backend Anthropic (sample_model 4)
           ["ok"; "bad"; "late"] ∅ shuffled [] Hmode Hvalid).
Defined.

(** X7.  Every thread pool [infer] opens has at least two workers, no more
    workers than [max_workers] and no more than the batch has prompts: the
    executor is never built with a size of zero or less. *)
Theorem X7_pool_size backend P self prompts kwargs sch w k :
  EvPool k ∈ trace_of backend P self prompts kwargs sch w →
  2 ≤ k ∧ k ≤ max_workers self ∧ k ≤ Z.of_nat (length prompts) ∧
  (k = max_workers self ∨ k = Z.of_nat (length prompts)).
Proof.
  destruct (use_pool self prompts) eqn:Hmode.
  - destruct (infer_pool_trace backend P self kwargs prompts sch w Hmode)
      as (outs & _ & ->).
    intros [[= ->]|Hin]%elem_of_cons.
    + unfold use_pool in Hmode. apply andb_true_iff in Hmode as [Hn Hk].
      apply Z.ltb_lt in Hn, Hk. lia.
    + by apply elem_of_calls_for in Hin as (? & ? & _ & _ & ?).
  - destruct (infer_sequential_cases backend P self kwargs prompts sch w Hmode)
      as (outs & -> & _).
    intros Hin. by apply elem_of_calls_for in Hin as (? & ? & _ & _ & ?).
Qed.

(** X7 on three prompts and an instance with eight workers. *)
Lemma X7_pool_size_witness :
  EvPool 3 ∈ trace_of sim_backend Mistral (sample_model 8) ["a"; "b"; "c"] ∅ shuffled [] ∧
  (2 ≤ 3 ∧ 3 ≤ max_workers (sample_model 8) ∧ 3 ≤ Z.of_nat (length ["a"; "b"; "c"]) ∧
   (3 = max_workers (sample_model 8) ∨ 3 = Z.of_nat (length ["a"; "b"; "c"]))).
Proof.
  assert (H : EvPool 3 ∈ trace_of sim_backend Mistral (sample_model 8)
                ["a"; "b"; "c"] ∅ shuffled []).
  { vm_compute. left. }
  split; [exact H|].
  exact (X7_pool_size sim_backend Mistral (sample_model 8) ["a"; "b"; "c"] ∅
           shuffled [] 3 H).
Defined.

(** *** Failures *)

(** When the call itself raised, the exception [_process_single_prompt]
    wraps is the one it raised. *)
Lemma result_of_raised P bad e0 e1 :
  result_of P bad = inl (api_error P e0) → bad = Raises e1 → e0 = e1.
Proof. intros Hr ->. unfold api_error in Hr. simpl in Hr. by injection Hr as _ ->. Qed.

(** X6.  Processing one prompt makes exactly one remote call and yields
    nothing, also when it fails.  Whatever exception arises, in the call or
    in reading the response, leaves as an [InferenceRuntimeError] whose
    message is the vendor's name, " API error: " and the text of the caught
    exception, and whose [original] is the caught exception; when the call
    itself raised, that is the exception it raised.  A Scored Output
    results only from a response whose first element has a text. *)
Theorem X6_processing_outcomes backend P self prompt config w :
  yielded (_process_single_prompt backend P self prompt config w) = [] ∧
  world (_process_single_prompt backend P self prompt config w)
    = w ++ [EvCall (_client self) (build_request P self prompt config)
              (backend w (_client self) (build_request P self prompt config))] ∧
  match value (_process_single_prompt backend P self prompt config w) with
  | inr so =>
      ∃ t ts,
        backend w (_client self) (build_request P self prompt config)
          = Returns {| texts := t :: ts |} ∧
        so = {| score := 1%float; output := t |}
  | inl e =>
      ∃ e0,
        e = InferenceRuntimeError (vendor P +:+ " API error: " +:+ str e0) (Some e0) ∧
        extracted (backend w (_client self) (build_request P self prompt config))
          = None ∧
        (∀ e1, backend w (_client self) (build_request P self prompt config)
                 = Raises e1 → e0 = e1)
  end.
Proof.
  rewrite process_eq. simpl. split_and!; [done..|].
  destruct (backend w _ _) as [e|[[|t ts]]|e]; simpl.
  - exists e. split_and!; [done..|]. by intros ? [= ->].
  - eexists. by split_and!.
  - by exists t, ts.
  - exists e. by split_and!.
Qed.

(** X3.  In the pool branch, under a valid schedule, whenever [infer]
    raises, nothing has been yielded, some call of the batch did not give
    a text, and the exception is the [InferenceRuntimeError]
    "Parallel inference error: ..." built around the
    [InferenceRuntimeError] "<vendor> API error: ..." of that call, which
    carries the exception caught there (the one the call raised, when the
    call itself raised).  In particular the check for a gap in the buffer
    never fires. *)
Theorem X3_pool_error_shape backend P self prompts kwargs sch w e :
  use_pool self prompts = true →
  valid_schedule prompts sch →
  value (infer backend P self prompts kwargs sch w) = inl e →
  yielded (infer backend P self prompts kwargs sch w) = [] ∧
  ∃ e0 bad,
    bad ∈ outcomes_of (trace_of backend P self prompts kwargs sch w) ∧
    extracted bad = None ∧
    (∀ e1, bad = Raises e1 → e0 = e1) ∧
    e = InferenceRuntimeError
          ("Parallel inference error: " +:+ vendor P +:+ " API error: " +:+ str e0)
          (Some (InferenceRuntimeError
                   (vendor P +:+ " API error: " +:+ str e0) (Some e0))).
Proof.
  intros Hmode Hvalid He.
  destruct (infer_pool_cases backend P self kwargs prompts sch w Hmode Hvalid)
    as (outs & Houts & [(_ & Hv & _)|(bad & e0 & Hbad & Hnone & Hr & Hv & Hy)]).
  - congruence.
  - split; [done|]. exists e0, bad. rewrite Houts. split_and!; [done..| |].
    + intros e1. by apply (result_of_raised P).
    + rewrite He in Hv. by injection Hv as ->.
Qed.

(** X3 on three prompts in the pool, the second of which fails. *)
Lemma X3_pool_error_shape_witness :
  use_pool (sample_model 4) ["ok"; "bad"; "late"] = true ∧
  valid_schedule ["ok"; "bad"; "late"] shuffled ∧
  value (infer sim_backend Mistral (sample_model 4) ["ok"; "bad"; "late"] ∅ shuffled [])
    = inl (InferenceRuntimeError "Parallel inference error: Mistral API error: boom"
             (Some (InferenceRuntimeError "Mistral API error: boom"
                      (Some (SDKError "boom"))))) ∧
  (yielded (infer sim_backend Mistral (sample_model 4) ["ok"; "bad"; "late"] ∅ shuffled [])
     = [] ∧
   ∃ e0 bad,
     bad ∈ outcomes_of (trace_of sim_backend Mistral (sample_model 4)
                          ["ok"; "bad"; "late"] ∅ shuffled []) ∧
     extracted bad = None ∧
     (∀ e1, bad = Raises e1 → e0 = e1) ∧
     InferenceRuntimeError "Parallel inference error: Mistral API error: boom"
       (Some (InferenceRuntimeError "Mistral API error: boom" (Some (SDKError "boom"))))
     = InferenceRuntimeError
         ("Parallel inference error: " +:+ vendor Mistral +:+ " API error: " +:+ str e0)
         (Some (InferenceRuntimeError
                  (vendor Mistral +:+ " API error: " +:+ str e0) (Some e0)))).
Proof.
  assert (Hmode : use_pool (sample_model 4) ["ok"; "bad"; "late"] = true)
    by reflexivity.
  assert (Hvalid : valid_schedule ["ok"; "bad"; "late"] shuffled).
  { split; simpl.
    - apply (bool_decide_unpack _). vm_compute. exact I.
    - apply (bool_decide_unpack _). vm_compute. exact I. }
  assert (He : value (infer sim_backend Mistral (sample_model 4)
                        ["ok"; "bad"; "late"] ∅ shuffled [])
    = inl (InferenceRuntimeError "Parallel inference error: Mistral API error: boom"
             (Some (InferenceRuntimeError "Mistral API error: boom"
                      (Some (SDKError "boom"))))))
    by (vm_compute; reflexivity).
  split; [exact Hmode|]. split; [exact Hvalid|]. split; [exact He|].
  exact (X3_pool_error_shape sim_backend Mistral (sample_model 4)
           ["ok"; "bad"; "late"] ∅ shuffled [] _ Hmode Hvalid He).
Defined.

(** X4.  In the sequential branch, whenever [infer] raises, the call that
    did not give a text is the last call made, one group has been yielded
    for every call before it, and the exception is the
    [InferenceRuntimeError] "<vendor> API error: ..." whose [original] is
    the exception caught at that call itself (the one the call raised,
    when the call itself raised). *)
Theorem X4_sequential_error_shape backend P self prompts kwargs sch w e :
  use_pool self prompts = false →
  value (infer backend P self prompts kwargs sch w) = inl e →
  ∃ e0 bad,
    last (outcomes_of (trace_of backend P self prompts kwargs sch w)) = Some bad ∧
    extracted bad = None ∧
    (∀ e1, bad = Raises e1 → e0 = e1) ∧
    e = InferenceRuntimeError (vendor P +:+ " API error: " +:+ str e0) (Some e0) ∧
    S (length (yielded (infer backend P self prompts kwargs sch w)))
      = length (outcomes_of (trace_of backend P self prompts kwargs sch w)).
Proof.
  intros Hmode. unfold trace_of, infer. rewrite Hmode.
  destruct (sequential_run backend P self (build_config self kwargs) prompts w)
    as (outs & -> & Hlen & -> & [(_ & _ & ->)|(outs' & bad & e0 & -> & Hall & Hbad & Hr & ->)]);
    [done|].
  intros [= <-]. rewrite new_events_app, outcomes_of_calls_for by done.
  exists e0, bad. split_and!.
  - by rewrite last_snoc.
  - done.
  - intros e1. by apply (result_of_raised P).
  - done.
  - unfold groups_of. rewrite omap_app. simpl. rewrite Hbad. simpl.
    rewrite app_nil_r, length_app. simpl.
    destruct (groups_of_all_answered outs' Hall) as [Hg _].
    unfold groups_of in Hg. rewrite Hg. lia.
Qed.

(** X4 on two prompts and one worker, the second of which fails. *)
Lemma X4_sequential_error_shape_witness :
  use_pool (sample_model 1) ["ok"; "bad"] = false ∧
  value (infer sim_backend Mistral (sample_model 1) ["ok"; "bad"] ∅ (in_order 2) [])
    = inl (InferenceRuntimeError "Mistral API error: boom" (Some (SDKError "boom"))) ∧
  ∃ e0 bad,
    last (outcomes_of (trace_of sim_backend Mistral (sample_model 1)
                         ["ok"; "bad"] ∅ (in_order 2) [])) = Some bad ∧
    extracted bad = None ∧
    (∀ e1, bad = Raises e1 → e0 = e1) ∧
    InferenceRuntimeError "Mistral API error: boom" (Some (SDKError "boom"))
      = InferenceRuntimeError (vendor Mistral +:+ " API error: " +:+ str e0) (Some e0) ∧
    S (length (yielded (infer sim_backend Mistral (sample_model 1)
                          ["ok"; "bad"] ∅ (in_order 2) [])))
      = length (outcomes_of (trace_of sim_backend Mistral (sample_model 1)
                               ["ok"; "bad"] ∅ (in_order 2) [])).
Proof.
  assert (Hmode : use_pool (sample_model 1) ["ok"; "bad"] = false) by reflexivity.
  assert (He : value (infer sim_backend Mistral (sample_model 1)
                        ["ok"; "bad"] ∅ (in_order 2) [])
    = inl (InferenceRuntimeError "Mistral API error: boom" (Some (SDKError "boom"))))
    by (vm_compute; reflexivity).
  split; [exact Hmode|]. split; [exact He|].
  exact (X4_sequential_error_shape sim_backend Mistral (sample_model 1)
           ["ok"; "bad"] ∅ (in_order 2) [] _ Hmode He).
Defined.

(** X5.  The loop that empties the buffer of the pool branch yields the
    slots before the first gap, each as a group of its own, and leaves the
    trace alone; it ends normally when the buffer has no gap and raises
    the [InferenceRuntimeError] "Failed to process one or more prompts",
    without an [original], at the first gap.  Nothing behind a gap is
    yielded, but what stands before it has been yielded by then. *)
Theorem X5_gap_in_buffer results w :
  yielded (yield_results results w) = (λ so, [so]) <$> filled_prefix results ∧
  world (yield_results results w) = w ∧
  value (yield_results results w)
    = if bool_decide (Forall is_Some results)
      then inr tt
      else inl (InferenceRuntimeError "Failed to process one or more prompts" None).
Proof.
  split_and!; [|apply world_yield_results|].
  - induction results as [|[so|] results IH]; simpl; [done| |done].
    unfold bind, yield. simpl. by rewrite IH.
  - induction results as [|[so|] results IH]; cbn [yield_results].
    + by rewrite bool_decide_eq_true_2.
    + unfold bind, yield. cbn [value world]. rewrite IH.
      destruct (bool_decide (Forall is_Some results)) eqn:Hd.
      * apply bool_decide_eq_true in Hd. rewrite bool_decide_eq_true_2; [done|].
        constructor; [by eexists|done].
      * apply bool_decide_eq_false in Hd. rewrite bool_decide_eq_false_2; [done|].
        by intros [_ ?]%Forall_cons.
    + rewrite bool_decide_eq_false_2; [done|].
      intros [[? [=]] _]%Forall_cons.
Qed.

(** *** Construction *)

(** X9.  Every remote call of an instance the constructor returned goes
    through the handle that the client class of the SDK returned when it
    was called with the key and the base URL given to the constructor;
    that key is not empty, and the request names the model given to the
    constructor. *)
Theorem X9_constructed_instance_calls backend sdk P rt a w0 self
    prompts kwargs sch w c req out :
  value (init sdk P rt a w0) = inr self →
  EvCall c req out ∈ trace_of backend P self prompts kwargs sch w →
  sdk P (client_keywords P a) = inr c ∧
  truthy (arg_api_key a) = true ∧
  req_model req = arg_model_id a.
Proof.
  unfold init, bind, try_except, import_package, open_client, emit, raise, ret.
  case_decide; simpl; [|done].
  destruct (truthy (arg_api_key a)) eqn:Hkey; simpl; [|done].
  destruct (sdk P (client_keywords P a)) as [e|client]; simpl; [done|].
  intros [= <-] (-> & p & _ & ->)%infer_calls. by simpl.
Qed.

(** X9 on an Anthropic instance built with a key and a proxy. *)
Lemma X9_constructed_instance_calls_witness :
  value (init sample_sdk Anthropic sample_runtime sample_args []) = inr sample_built ∧
  EvCall (_client sample_built)
      (build_request Anthropic sample_built "hello" (build_config sample_built ∅))
      (Returns {| texts := ["re:hello"] |})
    ∈ trace_of sim_backend Anthropic sample_built ["hello"] ∅ (in_order 1) [] ∧
  (sample_sdk Anthropic (client_keywords Anthropic sample_args)
     = inr (_client sample_built) ∧
   truthy (arg_api_key sample_args) = true ∧
   req_model (build_request Anthropic sample_built "hello" (build_config sample_built ∅))
     = arg_model_id sample_args).
Proof.
  assert (Hinit : value (init sample_sdk Anthropic sample_runtime sample_args [])
                  = inr sample_built)
    by (vm_compute; reflexivity).
  assert (Hev : EvCall (_client sample_built)
      (build_request Anthropic sample_built "hello" (build_config sample_built ∅))
      (Returns {| texts := ["re:hello"] |})
    ∈ trace_of sim_backend Anthropic sample_built ["hello"] ∅ (in_order 1) []).
  { vm_compute. left. }
  split; [exact Hinit|]. split; [exact Hev|].
  exact (X9_constructed_instance_calls sim_backend sample_sdk Anthropic sample_runtime
           sample_args [] sample_built ["hello"] ∅ (in_order 1) [] _ _ _ Hinit Hev).
Defined.

(** X10.  When construction fails, the exception tells which step failed,
    and the steps come in this order: without the package it is the
    [InferenceConfigError] with the install hint, raised from the
    [ImportError], whatever the key; with the package and without a key it
    is the [InferenceConfigError] "API key not provided for <vendor>.",
    with no cause; with the package and a key it is the exception the
    client class of the SDK raised, not wrapped. *)
Theorem X10_construction_errors sdk P rt a w e :
  value (init sdk P rt a w) = inl e →
  if bool_decide (package P ∈ importable rt)
  then if truthy (arg_api_key a)
       then sdk P (client_keywords P a) = inl e
       else e = InferenceConfigError
                  ("API key not provided for " +:+ vendor P +:+ ".") None
  else ∃ msg, e = InferenceConfigError (missing_package_message P) (Some (ImportError msg)).
Proof.
  unfold init, bind, try_except, import_package, open_client, emit, raise, ret.
  case_decide; simpl.
  - rewrite bool_decide_eq_true_2 by done.
    destruct (truthy (arg_api_key a)); simpl; [|by intros [= <-]].
    destruct (sdk P (client_keywords P a)) as [e'|client]; simpl; [|done].
    by intros [= ->].
  - rewrite bool_decide_eq_false_2 by done. intros [= <-]. eauto.
Qed.

(** X10 on the Mistral adapter with the package and a key: the client
    class refuses the keyword [endpoint]. *)
Lemma X10_construction_errors_witness :
  value (init sample_sdk Mistral sample_runtime sample_args [])
    = inl (TypeError "Mistral.__init__() got an unexpected keyword argument 'endpoint'") ∧
  (if bool_decide (package Mistral ∈ importable sample_runtime)
   then if truthy (arg_api_key sample_args)
        then sample_sdk Mistral (client_keywords Mistral sample_args)
             = inl (TypeError
                      "Mistral.__init__() got an unexpected keyword argument 'endpoint'")
        else TypeError "Mistral.__init__() got an unexpected keyword argument 'endpoint'"
             = InferenceConfigError
                 ("API key not provided for " +:+ vendor Mistral +:+ ".") None
   else ∃ msg,
          TypeError "Mistral.__init__() got an unexpected keyword argument 'endpoint'"
          = InferenceConfigError (missing_package_message Mistral)
              (Some (ImportError msg))).
Proof.
  assert (H : value (init sample_sdk Mistral sample_runtime sample_args [])
    = inl (TypeError "Mistral.__init__() got an unexpected keyword argument 'endpoint'"))
    by (vm_compute; reflexivity).
  split; [exact H|].
  exact (X10_construction_errors sample_sdk Mistral sample_runtime sample_args [] _ H).
Defined.

(** X17.  The Mistral adapter calls the client class with the keyword
    [endpoint].  With an SDK whose class refuses that keyword, no
    [MistralLanguageModel] is ever constructed: whatever the arguments,
    the constructor raises, and no client is opened. *)
Theorem X17_mistral_endpoint_keyword (sdk : SDK) rt a w :
  (∀ kws, "endpoint" ∈ kws.*1 → ∃ e, sdk Mistral kws = inl e) →
  succeeded (init sdk Mistral rt a w) = false ∧
  world (init sdk Mistral rt a w) = w.
Proof.
  intros Hrefuse.
  destruct (Hrefuse (client_keywords Mistral a)) as [e He].
  { simpl. right. left. }
  simpl in He. unfold succeeded, init, bind, try_except, import_package, open_client,
    emit, raise, ret.
  case_decide; simpl; [|done].
  destruct (truthy (arg_api_key a)); simpl; [|done].
  by rewrite He.
Qed.

(** X17 on the stand-in SDK and a construction with a key. *)
Lemma X17_mistral_endpoint_keyword_witness :
  (∀ kws, "endpoint" ∈ kws.*1 → ∃ e, sample_sdk Mistral kws = inl e) ∧
  (succeeded (init sample_sdk Mistral sample_runtime sample_args []) = false ∧
   world (init sample_sdk Mistral sample_runtime sample_args []) = []).
Proof.
  assert (H : ∀ kws, "endpoint" ∈ kws.*1 → ∃ e, sample_sdk Mistral kws = inl e).
  { intros kws Hin. unfold sample_sdk.
    destruct (filter (λ kv, kv.1 ∉ accepted_keywords Mistral) kws)
      as [|[k v] rest] eqn:Hf; [|by eexists].
    apply list_elem_of_fmap in Hin as ([k v] & Hk & Hin). simpl in Hk. subst k.
    assert (Hin' : ("endpoint", v) ∈ filter (λ kv, kv.1 ∉ accepted_keywords Mistral) kws).
    { apply list_elem_of_filter. split; [|done]. simpl.
      intros Hacc. repeat (apply elem_of_cons in Hacc as [[=]|Hacc]).
      by apply elem_of_nil in Hacc. }
    rewrite Hf in Hin'. by apply elem_of_nil in Hin'. }
  split; [exact H|].
  exact (X17_mistral_endpoint_keyword sample_sdk sample_runtime sample_args [] H).
Defined.

(** *** Fields [infer] does not read *)

Lemma build_request_same P self self' p config :
  same_inference_fields self self' →
  build_request P self p config = build_request P self' p config.
Proof.
  intros (Hm & Hf & Ht & _ & _).
  unfold build_request, build_messages, system_message. by rewrite Hm, Hf, Ht.
Qed.

Lemma process_same backend P self self' p config w :
  same_inference_fields self self' →
  _process_single_prompt backend P self p config w
  = _process_single_prompt backend P self' p config w.
Proof.
  intros Hsame. rewrite !process_eq.
  rewrite (build_request_same P self self' p config Hsame).
  destruct Hsame as (_ & _ & _ & _ & ->). done.
Qed.

Lemma infer_sequential_same backend P self self' config prompts w :
  same_inference_fields self self' →
  infer_sequential backend P self config prompts w
  = infer_sequential backend P self' config prompts w.
Proof.
  intros Hsame. revert w. induction prompts as [|p prompts IH]; intros w; [done|].
  rewrite !infer_sequential_cons.
  rewrite (build_request_same P self self' p config Hsame).
  destruct Hsame as (_ & _ & _ & _ & Hc). rewrite <- Hc. simpl.
  destruct (result_of P _); [done|]. by rewrite IH.
Qed.

Lemma run_workers_same backend P self self' config prompts started w :
  same_inference_fields self self' →
  run_workers backend P self config prompts started w
  = run_workers backend P self' config prompts started w.
Proof.
  intros Hsame. revert w. induction started as [|i rest IH]; intros w; [done|].
  simpl. destruct (prompts !! i) as [p|]; [|apply IH].
  unfold bind, in_future. rewrite (process_same backend P self self' p config w Hsame).
  simpl. by rewrite IH.
Qed.

(** X11.  [infer] reads the fields [model_id], [format_type],
    [temperature], [max_workers] and [_client] of the instance and no
    other: two instances that agree on these run alike, whatever their
    fields [api_key], [base_url] and [_extra_kwargs] hold.  The extra
    options the constructor accepts are stored and never used. *)
Theorem X11_unread_fields backend P self self' prompts kwargs sch w :
  same_inference_fields self self' →
  infer backend P self prompts kwargs sch w
  = infer backend P self' prompts kwargs sch w.
Proof.
  intros Hsame. pose proof Hsame as (_ & _ & Ht & Hk & _).
  unfold infer, use_pool, build_config, infer_parallel. rewrite Ht, Hk.
  destruct (_ && _); [|by apply infer_sequential_same].
  unfold bind. simpl. by rewrite (run_workers_same backend P self self' _ _ _ _ Hsame).
Qed.

(** X11 on two instances that share the client and differ in the stored
    key, base URL and extra options. *)
Lemma X11_unread_fields_witness :
  same_inference_fields (sample_model 2) (relabelled_model 2) ∧
  infer sim_backend Anthropic (sample_model 2) ["ok"; "bad"] hello_kwargs (in_order 2) []
  = infer sim_backend Anthropic (relabelled_model 2) ["ok"; "bad"] hello_kwargs (in_order 2) [].
Proof.
  assert (H : same_inference_fields (sample_model 2) (relabelled_model 2)).
  { by split_and!. }
  split; [exact H|].
  exact (X11_unread_fields sim_backend Anthropic (sample_model 2) (relabelled_model 2)
           ["ok"; "bad"] hello_kwargs (in_order 2) [] H).
Defined.

(** *** What the trace records *)

Lemma sequential_answered backend P self config prompts w :
  ∃ evs,
    world (infer_sequential backend P self config prompts w) = w ++ evs ∧
    Forall (answered_by backend) evs.
Proof.
  revert w. induction prompts as [|p prompts IH]; intros w.
  - exists []. by rewrite app_nil_r.
  - rewrite infer_sequential_cons. simpl.
    destruct (result_of P _); simpl.
    + eexists [_]. split; [done|]. constructor; [by eexists|done].
    + destruct (IH (w ++ [EvCall (_client self) (build_request P self p config)
                            (backend w (_client self) (build_request P self p config))]))
        as (evs & -> & Hevs).
      eexists (_ :: evs). rewrite <- app_assoc. split; [done|].
      constructor; [by eexists|done].
Qed.

Lemma run_workers_answered backend P self config prompts started w :
  ∃ evs,
    world (run_workers backend P self config prompts started w) = w ++ evs ∧
    Forall (answered_by backend) evs.
Proof.
  revert w. induction started as [|i rest IH]; intros w.
  - exists []. by rewrite app_nil_r.
  - simpl. destruct (prompts !! i) as [p|]; [|apply IH].
    unfold bind at 1, in_future. rewrite process_eq. simpl.
    destruct (IH (w ++ [EvCall (_client self) (build_request P self p config)
                          (backend w (_client self) (build_request P self p config))]))
      as (evs & Hw & Hevs).
    eexists (_ :: evs). split.
    + unfold bind, ret. simpl. destruct (value (run_workers _ _ _ _ _ _ _)); simpl;
        by rewrite Hw, <- app_assoc.
    + constructor; [by eexists|done].
Qed.

(** The trace of the pool branch is the trace of its workers. *)
Lemma infer_parallel_world backend P self config prompts sch w :
  world (infer_parallel backend P self config prompts sch w)
  = world (run_workers backend P self config prompts (started sch)
             (w ++ [EvPool (Z.min (max_workers self) (Z.of_nat (length prompts)))])).
Proof.
  set (k := Z.min (max_workers self) (Z.of_nat (length prompts))).
  destruct (workers_run backend P self config prompts (started sch) (w ++ [EvPool k]))
    as (outs & Hlen & Hrun).
  unfold infer_parallel. fold k.
  erewrite bind_returned; [|reflexivity].
  erewrite bind_returned; [|exact Hrun]. rewrite Hrun. simpl.
  destruct (first_failure (futures_for P (tasks_of prompts (started sch)) outs)
              (completed sch)) as [e|] eqn:Hff.
  - erewrite bind_raised; [done|]. by rewrite collect_results_eq, Hff.
  - erewrite bind_returned; [|by rewrite collect_results_eq, Hff].
    simpl. by rewrite world_yield_results.
Qed.

Lemma infer_answered backend P self prompts kwargs sch w :
  Forall (answered_by backend) (trace_of backend P self prompts kwargs sch w).
Proof.
  unfold trace_of, infer. destruct (use_pool self prompts).
  - rewrite infer_parallel_world.
    destruct (run_workers_answered backend P self (build_config self kwargs) prompts
                (started sch)
                (w ++ [EvPool (Z.min (max_workers self) (Z.of_nat (length prompts)))]))
      as (evs & -> & Hevs).
    rewrite <- app_assoc, new_events_app. simpl. by constructor.
  - destruct (sequential_answered backend P self (build_config self kwargs) prompts w)
      as (evs & -> & Hevs).
    by rewrite new_events_app.
Qed.

(** With a backend that ignores the history, an answer on the trace is
    the answer to its request. *)
Lemma infer_answer_of_request backend P self prompts kwargs sch w c req out :
  history_independent backend →
  EvCall c req out ∈ trace_of backend P self prompts kwargs sch w →
  out = backend [] c req.
Proof.
  intros Hpure Hin.
  pose proof (infer_answered backend P self prompts kwargs sch w) as Hall.
  rewrite Forall_forall in Hall. destruct (Hall _ Hin) as [h ->]. apply Hpure.
Qed.

Lemma elem_of_outcomes_of evs out :
  out ∈ outcomes_of evs → ∃ c req, EvCall c req out ∈ evs.
Proof.
  unfold outcomes_of. intros (ev & Hev & Hout)%list_elem_of_omap.
  destruct ev as [| |c req out']; simplify_eq/=. eauto.
Qed.

(** A run that ends normally has one group per prompt, at the position of
    the prompt, made from an answer to the request of that prompt. *)
Lemma infer_success_positions backend P self prompts kwargs sch w :
  (use_pool self prompts = true → valid_schedule prompts sch) →
  value (infer backend P self prompts kwargs sch w) = inr tt →
  length (yielded (infer backend P self prompts kwargs sch w)) = length prompts ∧
  ∀ i p, prompts !! i = Some p →
    ∃ out t,
      EvCall (_client self) (build_request P self p (build_config self kwargs)) out
        ∈ trace_of backend P self prompts kwargs sch w ∧
      extracted out = Some t ∧
      yielded (infer backend P self prompts kwargs sch w) !! i = Some (group_of t).
Proof.
  intros Hvalid Hv. destruct (use_pool self prompts) eqn:Hmode.
  - destruct (infer_pool_cases backend P self kwargs prompts sch w Hmode (Hvalid eq_refl))
      as (outs & Houts & [(_ & _ & Hlen & Hpos)|(bad & e0 & _ & _ & _ & Hv' & _)]);
      [done|congruence].
  - destruct (infer_sequential_cases backend P self kwargs prompts sch w Hmode)
      as (outs & Htrace & Houts & Hy & [(Hall & Hlen & _)|(outs' & bad & e0 & _ & _ & _ & _ & Hv')]);
      [|congruence].
    destruct (groups_of_all_answered outs Hall) as [Hglen Hgpos].
    split; [by rewrite Hy, Hglen|].
    intros i p Hp.
    destruct (lookup_lt_is_Some_2 outs i) as [out Hout].
    { rewrite Hlen. by eapply lookup_lt_Some. }
    destruct (Hgpos i out Hout) as (t & Ht & Hg).
    exists out, t. split_and!; [|done|by rewrite Hy].
    rewrite Htrace. apply list_elem_of_lookup. exists i. unfold calls_for.
    apply lookup_zip_with_Some. by exists p, out.
Qed.

(** A run that raises has made a call, for a prompt of the batch, that
    was not answered with a text. *)
Lemma infer_failure_call backend P self prompts kwargs sch w e :
  (use_pool self prompts = true → valid_schedule prompts sch) →
  value (infer backend P self prompts kwargs sch w) = inl e →
  ∃ p out,
    p ∈ prompts ∧
    EvCall (_client self) (build_request P self p (build_config self kwargs)) out
      ∈ trace_of backend P self prompts kwargs sch w ∧
    extracted out = None.
Proof.
  intros Hvalid Hv.
  assert (Hbad : ∃ bad, bad ∈ outcomes_of (trace_of backend P self prompts kwargs sch w)
                        ∧ extracted bad = None).
  { destruct (use_pool self prompts) eqn:Hmode.
    - destruct (infer_pool_cases backend P self kwargs prompts sch w Hmode (Hvalid eq_refl))
        as (outs & Houts & [(_ & Hv' & _)|(bad & e0 & Hbad & Hnone & _)]);
        [congruence|]. exists bad. by rewrite Houts.
    - destruct (infer_sequential_cases backend P self kwargs prompts sch w Hmode)
        as (outs & _ & Houts & _ & [(_ & _ & Hv')|(outs' & bad & e0 & -> & _ & _ & Hnone & _)]);
        [congruence|]. exists bad. rewrite Houts. split; [|done].
      apply elem_of_app. right. left. }
  destruct Hbad as (bad & Hin & Hnone).
  apply elem_of_outcomes_of in Hin as (c & req & Hin).
  pose proof (infer_calls backend P self kwargs prompts sch w c req bad Hin)
    as (-> & p & Hp & ->).
  by exists p, bad.
Qed.

(** X8.  With a backend whose answers depend on the request only, the
    number of workers does not change the results: if [infer] ends
    normally on one instance, then on any instance that differs in
    [max_workers] only, under any valid schedule and from any history, it
    ends normally too and yields the same groups in the same order. *)
Theorem X8_workers_do_not_change_results backend P self self'
    prompts kwargs sch sch' w w' :
  history_independent backend →
  same_but_workers self self' →
  (use_pool self prompts = true → valid_schedule prompts sch) →
  (use_pool self' prompts = true → valid_schedule prompts sch') →
  value (infer backend P self prompts kwargs sch w) = inr tt →
  value (infer backend P self' prompts kwargs sch' w') = inr tt ∧
  yielded (infer backend P self' prompts kwargs sch' w')
    = yielded (infer backend P self prompts kwargs sch w).
Proof.
  intros Hpure (Hm & _ & _ & Hf & Ht & Hc & _) Hvalid Hvalid' Hv.
  assert (Hreq : ∀ p, build_request P self' p (build_config self' kwargs)
                      = build_request P self p (build_config self kwargs)).
  { intros p. unfold build_request, build_config, build_messages, system_message.
    by rewrite Hm, Hf, Ht. }
  destruct (infer_success_positions backend P self prompts kwargs sch w Hvalid Hv)
    as [Hlen Hpos].
  assert (Hv' : value (infer backend P self' prompts kwargs sch' w') = inr tt).
  { destruct (value (infer backend P self' prompts kwargs sch' w')) as [e|[]] eqn:He;
      [|done].
    destruct (infer_failure_call backend P self' prompts kwargs sch' w' e Hvalid' He)
      as (p & out & Hp & Hev & Hnone).
    apply (infer_answer_of_request _ _ _ _ _ _ _ _ _ _ Hpure) in Hev.
    apply list_elem_of_lookup in Hp as [i Hi].
    destruct (Hpos i p Hi) as (out1 & t & Hev1 & Ht1 & _).
    apply (infer_answer_of_request _ _ _ _ _ _ _ _ _ _ Hpure) in Hev1.
    rewrite Hreq, <- Hc in Hev. congruence. }
  split; [done|].
  destruct (infer_success_positions backend P self' prompts kwargs sch' w' Hvalid' Hv')
    as [Hlen' Hpos'].
  apply list_eq. intros i.
  destruct (prompts !! i) as [p|] eqn:Hi.
  - destruct (Hpos i p Hi) as (out1 & t1 & Hev1 & Ht1 & ->).
    destruct (Hpos' i p Hi) as (out2 & t2 & Hev2 & Ht2 & ->).
    apply (infer_answer_of_request _ _ _ _ _ _ _ _ _ _ Hpure) in Hev1, Hev2.
    rewrite Hreq, <- Hc in Hev2. congruence.
  - apply lookup_ge_None in Hi.
    rewrite !(proj2 (lookup_ge_None _ _)); [done|lia..].
Qed.

(** X8 on three prompts, with one worker and with eight. *)
Lemma X8_workers_do_not_change_results_witness :
  history_independent sim_backend ∧
  same_but_workers (sample_model 1) (sample_model 8) ∧
  (use_pool (sample_model 1) ["a"; "b"; "c"] = true →
   valid_schedule ["a"; "b"; "c"] (in_order 3)) ∧
  (use_pool (sample_model 8) ["a"; "b"; "c"] = true →
   valid_schedule ["a"; "b"; "c"] shuffled) ∧
  value (infer sim_backend Anthropic (sample_model 1) ["a"; "b"; "c"] ∅ (in_order 3) [])
    = inr tt ∧
  (value (infer sim_backend Anthropic (sample_model 8) ["a"; "b"; "c"] ∅ shuffled
            [EvPool 5])
     = inr tt ∧
   yielded (infer sim_backend Anthropic (sample_model 8) ["a"; "b"; "c"] ∅ shuffled
              [EvPool 5])
     = yielded (infer sim_backend Anthropic (sample_model 1) ["a"; "b"; "c"] ∅
                  (in_order 3) [])).
Proof.
  assert (Hpure : history_independent sim_backend) by (intros ? ? ? ?; reflexivity).
  assert (Hsame : same_but_workers (sample_model 1) (sample_model 8)) by (by split_and!).
  assert (Hvalid : use_pool (sample_model 1) ["a"; "b"; "c"] = true →
                   valid_schedule ["a"; "b"; "c"] (in_order 3)) by (intros [=]).
  assert (Hvalid' : use_pool (sample_model 8) ["a"; "b"; "c"] = true →
                    valid_schedule ["a"; "b"; "c"] shuffled).
  { intros _. split; simpl.
    - apply (bool_decide_unpack _). vm_compute. exact I.
    - apply (bool_decide_unpack _). vm_compute. exact I. }
  assert (Hv : value (infer sim_backend Anthropic (sample_model 1) ["a"; "b"; "c"] ∅
                        (in_order 3) []) = inr tt) by (vm_compute; reflexivity).
  split; [exact Hpure|]. split; [exact Hsame|]. split; [exact Hvalid|].
  split; [exact Hvalid'|]. split; [exact Hv|].
  exact (X8_workers_do_not_change_results sim_backend Anthropic (sample_model 1)
           (sample_model 8) ["a"; "b"; "c"] ∅ (in_order 3) shuffled [] [EvPool 5]
           Hpure Hsame Hvalid Hvalid' Hv).
Defined.

(** *** The order of completion *)

Lemma parallel_runs_share backend P self config prompts sch sch' w :
  started sch = started sch' →
  ∃ outs w1,
    length outs = length (tasks_of prompts (started sch)) ∧
    (infer_parallel backend P self config prompts sch w =
     match first_failure (futures_for P (tasks_of prompts (started sch)) outs)
             (completed sch) with
     | Some e => mkRes (inl (parallel_error e)) [] w1
     | None =>
         yield_results
           (fill (futures_for P (tasks_of prompts (started sch)) outs) (completed sch)
              (replicate (length prompts) None)) w1
     end) ∧
    (infer_parallel backend P self config prompts sch' w =
     match first_failure (futures_for P (tasks_of prompts (started sch)) outs)
             (completed sch') with
     | Some e => mkRes (inl (parallel_error e)) [] w1
     | None =>
         yield_results
           (fill (futures_for P (tasks_of prompts (started sch)) outs) (completed sch')
              (replicate (length prompts) None)) w1
     end).
Proof.
  intros Hstarted.
  set (k := Z.min (max_workers self) (Z.of_nat (length prompts))).
  destruct (workers_run backend P self config prompts (started sch) (w ++ [EvPool k]))
    as (outs & Hlen & Hrun).
  exists outs, ((w ++ [EvPool k]) ++
                calls_for P self config (tasks_of prompts (started sch)).*2 outs).
  split; [done|]. split.
  - unfold infer_parallel. fold k.
    erewrite bind_returned; [|reflexivity].
    erewrite bind_returned; [|exact Hrun]. simpl.
    destruct (first_failure _ _) as [e|] eqn:Hff.
    + erewrite bind_raised; [done|]. by rewrite collect_results_eq, Hff.
    + erewrite bind_returned; [|by rewrite collect_results_eq, Hff].
      simpl. by destruct (yield_results _ _).
  - unfold infer_parallel. fold k. rewrite <- Hstarted.
    erewrite bind_returned; [|reflexivity].
    erewrite bind_returned; [|exact Hrun]. simpl.
    destruct (first_failure _ _) as [e|] eqn:Hff.
    + erewrite bind_raised; [done|]. by rewrite collect_results_eq, Hff.
    + erewrite bind_returned; [|by rewrite collect_results_eq, Hff].
      simpl. by destruct (yield_results _ _).
Qed.

Lemma futures_for_position P prompts started outs i r :
  (i, r) ∈ futures_for P (tasks_of prompts started) outs →
  (i < length prompts)%nat.
Proof.
  unfold futures_for. intros (j & Hj)%list_elem_of_lookup.
  apply lookup_zip_with_Some in Hj as ([i' p] & out & [= -> ->] & Ht & _).
  apply list_elem_of_lookup_2, elem_of_tasks_of in Ht as [_ Hp].
  by eapply lookup_lt_Some.
Qed.

(** When every position is handed back, whether some future has failed
    does not depend on the order in which the futures are handed back. *)
Lemma first_failure_any_order P prompts started outs completed completed' e :
  (∀ i, (i < length prompts)%nat → i ∈ completed') →
  first_failure (futures_for P (tasks_of prompts started) outs) completed = Some e →
  is_Some (first_failure (futures_for P (tasks_of prompts started) outs) completed').
Proof.
  intros Hall (i & _ & Hf)%first_failure_Some.
  apply (first_failure_is_Some _ _ i e); [|done].
  apply Hall. apply future_of_Some in Hf. by eapply futures_for_position.
Qed.

(** X15.  In the pool branch the order in which the futures complete can
    change nothing but which failure is reported: two valid schedules that
    start the tasks in the same order leave the same trace, yield the same
    groups, and end normally or not together. *)
Theorem X15_completion_order backend P self prompts kwargs sch sch' w :
  use_pool self prompts = true →
  valid_schedule prompts sch →
  valid_schedule prompts sch' →
  started sch = started sch' →
  world (infer backend P self prompts kwargs sch w)
    = world (infer backend P self prompts kwargs sch' w) ∧
  yielded (infer backend P self prompts kwargs sch w)
    = yielded (infer backend P self prompts kwargs sch' w) ∧
  (value (infer backend P self prompts kwargs sch w) = inr tt ↔
   value (infer backend P self prompts kwargs sch' w) = inr tt).
Proof.
  intros Hmode Hvalid Hvalid' Hstarted. unfold infer. rewrite Hmode.
  destruct (parallel_runs_share backend P self (build_config self kwargs)
              prompts sch sch' w Hstarted) as (outs & w1 & Hlen & -> & ->).
  set (futures := futures_for P (tasks_of prompts (started sch)) outs).
  destruct (first_failure futures (completed sch)) as [e|] eqn:Hff;
    destruct (first_failure futures (completed sch')) as [e'|] eqn:Hff'.
  - simpl. by split_and!.
  - destruct (first_failure_any_order P prompts (started sch) outs
                (completed sch) (completed sch') e) as [? Hsome]; [|done|].
    { intros i. apply (valid_schedule_completed _ _ Hvalid'). }
    fold futures in Hsome. congruence.
  - destruct (first_failure_any_order P prompts (started sch) outs
                (completed sch') (completed sch) e') as [? Hsome]; [|done|].
    { intros i. apply (valid_schedule_completed _ _ Hvalid). }
    fold futures in Hsome. congruence.
  - assert (Hfill : fill futures (completed sch) (replicate (length prompts) None)
                    = fill futures (completed sch') (replicate (length prompts) None)).
    { apply list_eq. intros i.
      destruct (prompts !! i) as [p|] eqn:Hi.
      - destruct (pool_future_of_position P self (build_config self kwargs)
                    prompts sch outs i p Hvalid Hlen Hi) as (out & _ & Hf & _).
        fold futures in Hf.
        assert (Hi1 : i ∈ completed sch).
        { apply (valid_schedule_completed _ _ Hvalid). by eapply lookup_lt_Some. }
        assert (Hi2 : i ∈ completed sch').
        { apply (valid_schedule_completed _ _ Hvalid'). by eapply lookup_lt_Some. }
        destruct (result_of P out) as [e0|so] eqn:Hr.
        { by destruct (first_failure_None _ _ _ _ Hff Hi1 Hf). }
        rewrite !(fill_lookup futures _ _ i so); try done;
          rewrite length_replicate; by eapply lookup_lt_Some.
      - apply lookup_ge_None in Hi.
        rewrite !(proj2 (lookup_ge_None _ _)); [done|..];
          by rewrite length_fill, length_replicate. }
    rewrite Hfill. by split_and!.
Qed.

(** X15 on three prompts, one of which fails, with two orders of
    completion. *)
Lemma X15_completion_order_witness :
  use_pool (sample_model 4) ["ok"; "bad"; "late"] = true ∧
  valid_schedule ["ok"; "bad"; "late"] shuffled ∧
  valid_schedule ["ok"; "bad"; "late"] shuffled_start ∧
  started shuffled = started shuffled_start ∧
  (world (infer sim_backend Mistral (sample_model 4) ["ok"; "bad"; "late"] ∅ shuffled [])
     = world (infer sim_backend Mistral (sample_model 4) ["ok"; "bad"; "late"] ∅
                shuffled_start []) ∧
   yielded (infer sim_backend Mistral (sample_model 4) ["ok"; "bad"; "late"] ∅ shuffled [])
     = yielded (infer sim_backend Mistral (sample_model 4) ["ok"; "bad"; "late"] ∅
                  shuffled_start []) ∧
   (value (infer sim_backend Mistral (sample_model 4) ["ok"; "bad"; "late"] ∅ shuffled [])
      = inr tt ↔
    value (infer sim_backend Mistral (sample_model 4) ["ok"; "bad"; "late"] ∅
             shuffled_start []) = inr tt)).
Proof.
  assert (Hmode : use_pool (sample_model 4) ["ok"; "bad"; "late"] = true)
    by reflexivity.
  assert (Hvalid : valid_schedule ["ok"; "bad"; "late"] shuffled).
  { split; simpl.
    - apply (bool_decide_unpack _). vm_compute. exact I.
    - apply (bool_decide_unpack _). vm_compute. exact I. }
  assert (Hvalid' : valid_schedule ["ok"; "bad"; "late"] shuffled_start).
  { split; simpl.
    - apply (bool_decide_unpack _). vm_compute. exact I.
    - reflexivity. }
  assert (Hstarted : started shuffled = started shuffled_start) by reflexivity.
  split; [exact Hmode|]. split; [exact Hvalid|]. split; [exact Hvalid'|].
  split; [exact Hstarted|].
  exact (X15_completion_order sim_backend Mistral (sample_model 4)
           ["ok"; "bad"; "late"] ∅ shuffled shuffled_start [] Hmode Hvalid Hvalid' Hstarted).
Defined.

(** *** The registration test *)

Lemma string_prefix_spec s1 s2 :
  String.prefix s1 s2 = true ↔ ∃ post, s2 = s1 +:+ post.
Proof.
  revert s2. induction s1 as [|a s1 IH]; intros s2.
  - destruct s2; simpl; split; eauto.
  - destruct s2 as [|b s2]; simpl.
    + split; [done|]. by intros [post [=]].
    + destruct (Ascii.ascii_dec a b) as [->|Hne].
      * rewrite IH. split; intros [post Hpost]; exists post; [by rewrite Hpost|].
        by injection Hpost.
      * split; [done|]. intros [post [= ? _]]. done.
Qed.

Lemma contains_spec needle hay :
  contains needle hay = true ↔ ∃ pre post, hay = pre +:+ needle +:+ post.
Proof.
  induction hay as [|c hay IH].
  - cbn [contains]. rewrite orb_false_r, string_prefix_spec. split.
    + intros [post ->]. by exists "", post.
    + intros ([|? pre] & post & Hpost); [|done]. exists post. exact Hpost.
  - cbn [contains]. rewrite orb_true_iff, string_prefix_spec, IH. split.
    + intros [[post ->]|(pre & post & ->)].
      * by exists "", post.
      * by exists (String c pre), post.
    + intros ([|c' pre] & post & Hpost).
      * left. exists post. exact Hpost.
      * right. exists pre, post. by injection Hpost.
Qed.

Lemma existsb_contains name providers :
  existsb (contains name) (provider_patterns providers) = true ↔
  some_pattern_has name providers.
Proof.
  unfold some_pattern_has, provider_patterns.
  rewrite existsb_exists. split.
  - intros (pattern & Hin & (pre & post & ->)%contains_spec).
    apply in_flat_map in Hin as (entry & Hentry & Hpat).
    exists entry, (pre +:+ name +:+ post), pre, post.
    by rewrite <- !list_elem_of_In in *.
  - intros (entry & pattern & pre & post & Hentry & Hpat & ->).
    exists (pre +:+ name +:+ post). split.
    + apply in_flat_map. exists entry. by rewrite <- !list_elem_of_In.
    + apply contains_spec. eauto.
Qed.

(** X12.  The registration test passes exactly when each of the names
    "claude-", "mistral-" and "grok-" is a substring of some pattern of
    some entry; priorities and the order of the entries play no part. *)
Theorem X12_registration_test_passes show providers :
  (test_provider_registration show providers).2 = None ↔
  some_pattern_has "claude-" providers ∧
  some_pattern_has "mistral-" providers ∧
  some_pattern_has "grok-" providers.
Proof.
  rewrite <- !existsb_contains. unfold test_provider_registration.
  destruct (existsb (contains "claude-") _), (existsb (contains "mistral-") _),
    (existsb (contains "grok-") _); simpl;
    (split; [try done|by intros (? & ? & ?)]).
Qed.

(** X13.  When the patterns of the two adapters are among the entries, the
    first two assertions of the registration test pass and both of their
    lines are printed.  The test then fails only on the third assertion:
    it raises "Grok provider not registered" exactly when no pattern has
    "grok-" as a substring. *)
Theorem X13_registration_test_with_adapters show providers :
  (∃ entry, entry ∈ providers ∧ registered_pattern Anthropic ∈ entry.1) →
  (∃ entry, entry ∈ providers ∧ registered_pattern Mistral ∈ entry.1) →
  "[PASS] Anthropic provider is registered"
    ∈ (test_provider_registration show providers).1 ∧
  "[PASS] Mistral provider is registered"
    ∈ (test_provider_registration show providers).1 ∧
  (test_provider_registration show providers).2
    = if existsb (contains "grok-") (provider_patterns providers)
      then None
      else Some "Grok provider not registered".
Proof.
  intros (e1 & He1 & Hp1) (e2 & He2 & Hp2).
  assert (H1 : existsb (contains "claude-") (provider_patterns providers) = true).
  { apply existsb_contains. exists e1, "^claude-", "^", "". by split_and!. }
  assert (H2 : existsb (contains "mistral-") (provider_patterns providers) = true).
  { apply existsb_contains. exists e2, "^mistral-", "^", "". by split_and!. }
  unfold test_provider_registration. rewrite H1, H2. simpl.
  destruct (existsb (contains "grok-") _); simpl; split_and!; try done;
    rewrite ?elem_of_cons, ?elem_of_app, ?elem_of_cons; naive_solver.
Qed.

(** X13 on the entries of the two adapters alone. *)
Lemma X13_registration_test_with_adapters_witness :
  (∃ entry, entry ∈ [([registered_pattern Anthropic], registered_priority Anthropic);
                     ([registered_pattern Mistral], registered_priority Mistral)] ∧
            registered_pattern Anthropic ∈ entry.1) ∧
  (∃ entry, entry ∈ [([registered_pattern Anthropic], registered_priority Anthropic);
                     ([registered_pattern Mistral], registered_priority Mistral)] ∧
            registered_pattern Mistral ∈ entry.1) ∧
  ("[PASS] Anthropic provider is registered"
     ∈ (test_provider_registration show_priority
          [([registered_pattern Anthropic], registered_priority Anthropic);
           ([registered_pattern Mistral], registered_priority Mistral)]).1 ∧
   "[PASS] Mistral provider is registered"
     ∈ (test_provider_registration show_priority
          [([registered_pattern Anthropic], registered_priority Anthropic);
           ([registered_pattern Mistral], registered_priority Mistral)]).1 ∧
   (test_provider_registration show_priority
      [([registered_pattern Anthropic], registered_priority Anthropic);
       ([registered_pattern Mistral], registered_priority Mistral)]).2
     = if existsb (contains "grok-")
            (provider_patterns
               [([registered_pattern Anthropic], registered_priority Anthropic);
                ([registered_pattern Mistral], registered_priority Mistral)])
       then None
       else Some "Grok provider not registered").
Proof.
  assert (H1 : ∃ entry : Entry,
             entry ∈ [([registered_pattern Anthropic], registered_priority Anthropic);
                      ([registered_pattern Mistral], registered_priority Mistral)] ∧
             registered_pattern Anthropic ∈ entry.1).
  { eexists. split; [left|]. simpl. left. }
  assert (H2 : ∃ entry : Entry,
             entry ∈ [([registered_pattern Anthropic], registered_priority Anthropic);
                      ([registered_pattern Mistral], registered_priority Mistral)] ∧
             registered_pattern Mistral ∈ entry.1).
  { eexists. split; [right; left|]. simpl. left. }
  split; [exact H1|]. split; [exact H2|].
  exact (X13_registration_test_with_adapters show_priority _ H1 H2).
Defined.

(** *** The sequential branch and the overrides *)

(** X2.  In the sequential branch the groups yielded are, in order, the
    groups of the answered calls on the trace, whether the run ends
    normally or not; and a run that ends normally has sent exactly the
    requests of the batch, in the order of the batch. *)
Theorem X2_sequential_yields_follow_calls backend P self prompts kwargs sch w :
  use_pool self prompts = false →
  yielded (infer backend P self prompts kwargs sch w)
    = groups_of (outcomes_of (trace_of backend P self prompts kwargs sch w)) ∧
  (value (infer backend P self prompts kwargs sch w) = inr tt →
   requests_of (trace_of backend P self prompts kwargs sch w)
     = (λ p, build_request P self p (build_config self kwargs)) <$> prompts).
Proof.
  intros Hmode.
  destruct (infer_sequential_cases backend P self kwargs prompts sch w Hmode)
    as (outs & Htrace & Houts & Hy & Hcases).
  split; [by rewrite Hy, Houts|].
  intros Hv. destruct Hcases as [(_ & Hlen & _)|(outs' & bad & e0 & _ & _ & _ & _ & Hv')];
    [|congruence].
  by rewrite Htrace, requests_of_calls_for, Hlen, firstn_all.
Qed.

(** X2 on two prompts and one worker, the second of which fails. *)
Lemma X2_sequential_yields_follow_calls_witness :
  use_pool (sample_model 1) ["ok"; "bad"] = false ∧
  (yielded (infer sim_backend Anthropic (sample_model 1) ["ok"; "bad"] ∅ (in_order 2) [])
     = groups_of (outcomes_of (trace_of sim_backend Anthropic (sample_model 1)
                                 ["ok"; "bad"] ∅ (in_order 2) [])) ∧
   (value (infer sim_backend Anthropic (sample_model 1) ["ok"; "bad"] ∅ (in_order 2) [])
      = inr tt →
    requests_of (trace_of sim_backend Anthropic (sample_model 1)
                   ["ok"; "bad"] ∅ (in_order 2) [])
      = (λ p, build_request Anthropic (sample_model 1) p
                (build_config (sample_model 1) ∅)) <$> ["ok"; "bad"])).
Proof.
  assert (Hmode : use_pool (sample_model 1) ["ok"; "bad"] = false) by reflexivity.
  split; [exact Hmode|].
  exact (X2_sequential_yields_follow_calls sim_backend Anthropic (sample_model 1)
           ["ok"; "bad"] ∅ (in_order 2) [] Hmode).
Defined.

(** X14.  The dictionary [config] that [infer] hands to every call has the
    key "temperature" in all cases, the keys "max_output_tokens" and "top_p"
    exactly when the overrides have them, with the overrides' values, and
    no other key: an override under any other name is dropped. *)
Theorem X14_config_keys self (kwargs : gmap string pyval) key :
  build_config self kwargs !! key =
    if decide (key = "temperature")
    then Some (dict_get kwargs "temperature" (PyFloat (temperature self)))
    else if decide (key = "max_output_tokens" ∨ key = "top_p")
         then kwargs !! key
         else None.
Proof.
  unfold build_config.
  destruct (kwargs !! "max_output_tokens") eqn:Hm, (kwargs !! "top_p") eqn:Ht;
    repeat case_decide; simplify_map_eq; try done;
    match goal with H : _ ∨ _ |- _ => destruct H as [->| ->] end;
    by simplify_map_eq.
Qed.

Lemma build_config_ext self (kwargs kwargs' : gmap string pyval) :
  kwargs !! "temperature" = kwargs' !! "temperature" →
  kwargs !! "max_output_tokens" = kwargs' !! "max_output_tokens" →
  kwargs !! "top_p" = kwargs' !! "top_p" →
  build_config self kwargs = build_config self kwargs'.
Proof.
  intros Ht Hm Hp. unfold build_config, dict_get. by rewrite Ht, Hm, Hp.
Qed.

(** X16.  [infer] depends on the overrides through the keys "temperature",
    "max_output_tokens" and "top_p" only: two dictionaries of overrides that
    agree on these three keys give the same run. *)
Theorem X16_unknown_overrides_ignored backend P self prompts
    (kwargs kwargs' : gmap string pyval) sch w :
  kwargs !! "temperature" = kwargs' !! "temperature" →
  kwargs !! "max_output_tokens" = kwargs' !! "max_output_tokens" →
  kwargs !! "top_p" = kwargs' !! "top_p" →
  infer backend P self prompts kwargs sch w
  = infer backend P self prompts kwargs' sch w.
Proof.
  intros Ht Hm Hp. unfold infer.
  by rewrite (build_config_ext self kwargs kwargs' Ht Hm Hp).
Qed.

(** X16 on the sample overrides with and without the unknown key. *)
Lemma X16_unknown_overrides_ignored_witness :
  hello_kwargs !! "temperature"
    = ({[ "temperature" := PyFloat 0.5%float ]} : gmap string pyval) !! "temperature" ∧
  hello_kwargs !! "max_output_tokens"
    = ({[ "temperature" := PyFloat 0.5%float ]} : gmap string pyval) !! "max_output_tokens" ∧
  hello_kwargs !! "top_p"
    = ({[ "temperature" := PyFloat 0.5%float ]} : gmap string pyval) !! "top_p" ∧
  infer sim_backend Mistral (sample_model 4) ["ok"; "bad"; "late"] hello_kwargs shuffled []
  = infer sim_backend Mistral (sample_model 4) ["ok"; "bad"; "late"]
      {[ "temperature" := PyFloat 0.5%float ]} shuffled [].
Proof.
  assert (Ht : hello_kwargs !! "temperature"
    = ({[ "temperature" := PyFloat 0.5%float ]} : gmap string pyval) !! "temperature")
    by reflexivity.
  assert (Hm : hello_kwargs !! "max_output_tokens"
    = ({[ "temperature" := PyFloat 0.5%float ]} : gmap string pyval) !! "max_output_tokens")
    by reflexivity.
  assert (Hp : hello_kwargs !! "top_p"
    = ({[ "temperature" := PyFloat 0.5%float ]} : gmap string pyval) !! "top_p")
    by reflexivity.
  split; [exact Ht|]. split; [exact Hm|]. split; [exact Hp|].
  exact (X16_unknown_overrides_ignored sim_backend Mistral (sample_model 4)
           ["ok"; "bad"; "late"] hello_kwargs {[ "temperature" := PyFloat 0.5%float ]}
           shuffled [] Ht Hm Hp).
Defined.
